(** * hadar dispatcher: the exchange ledger and the broker protocol engine

    A shallow embedding of [src/dispatcher/broker.py]: the classes
    [LedgerExchange] and [Broker].  Python integers are [Z]; the two
    dictionaries of the ledger are finite maps; the handlers of the broker
    run in a state, trace and exception monad whose trace records every
    [tell] and [ask] the handler performs. *)

From Stdlib Require Import ZArith Lia SpecFloat.
From stdpp Require Import gmap strings list fin_maps sorting.

Open Scope Z_scope.

(** Node names are Python strings, identifiers are whatever [uuid_generate]
    returns; they only need to be hashable, here natural numbers. *)
Abbreviation name := string.
Abbreviation uuid := nat.

(** ** Domain model

    Modelled from the spec: the module [dispatcher.domain] (the classes
    [Consumption], [Production], [Border], [Exchange], [NodeState] and the
    messages) is not part of the sources.  The records below carry the
    fields section 3 of the specification lists and the keyword arguments
    the broker passes to the constructors; a production built without a
    type is a local one, one built without an exchange has none. *)

Module Consumption.
Record t := mk { cost : Z; quantity : Z }.
End Consumption.

Module Exchange.
Record t := mk { quantity : Z; id : uuid; production_id : uuid; path_node : list name }.
End Exchange.

Inductive production_type := Local | Import | ExchangeBacked.

Module Production.
Record t := mk {
  cost : Z;
  quantity : Z;
  type : production_type;
  id : uuid;
  exchange : option Exchange.t
}.
End Production.

Module Border.
Record t := mk { dest : name; cost : Z; quantity : Z }.
End Border.

Module NodeState.
Record t := mk {
  cost : Z;
  productions_used : list Production.t;
  productions_free : list Production.t
}.
End NodeState.

Module Proposal.
Record t := mk { production_id : uuid; cost : Z; quantity : Z; path_node : list name }.
End Proposal.

Module ProposalOffer.
Record t := mk {
  production_id : uuid;
  cost : Z;
  quantity : Z;
  path_node : list name;
  return_path_node : list name
}.
End ProposalOffer.

Module ConsumerCanceledExchange.
Record t := mk { exchanges : list Exchange.t; path_node : list name }.
End ConsumerCanceledExchange.

#[global] Instance border_eq_dec : EqDecision Border.t.
Proof. solve_decision. Defined.

(** ** Python values and primitives *)

(** The exceptions the modelled code can raise. *)
Inductive exn := ValueError | KeyError | IndexError | ZeroDivisionError | OverflowError.

Inductive result (A : Type) :=
  | Ok (a : A)
  | Raise (e : exn).
Arguments Ok {A} a.
Arguments Raise {A} e.

(** The objects that meet in the membership test of [send_proposal]: the
    elements of a [path_node] are node names, the tested object is a
    [Border].

    Modelled from the spec: [Border] is a value class of the absent domain
    module; objects of two different classes are never equal, two borders
    are equal when their fields are. *)
Inductive pyobj :=
  | PyStr (s : string)
  | PyBorder (b : Border.t).

Definition py_eq (x y : pyobj) : bool :=
  match x, y with
  | PyStr s, PyStr s' => bool_decide (s = s')
  | PyBorder b, PyBorder b' => bool_decide (b = b')
  | _, _ => false
  end.

(** [x in l] *)
Definition py_in (x : pyobj) (l : list pyobj) : bool := existsb (py_eq x) l.

(** [l[0]] *)
Definition py_first {A} (l : list A) : result A :=
  match l with
  | [] => Raise IndexError
  | x :: _ => Ok x
  end.

(** [l[start::-1]]: the start index is adjusted as CPython adjusts slice
    indices for a negative step (a negative index counts from the end and is
    clipped to -1, a large one is clipped to [len - 1]); the slice then runs
    down to index 0. *)
Definition slice_down {A} (l : list A) (start : Z) : list A :=
  let len := Z.of_nat (length l) in
  let s := if start <? 0 then Z.max (start + len) (-1) else Z.min start (len - 1) in
  rev (take (Z.to_nat (s + 1)) l).

(** [sum([ex.quantity for ex in exs])] *)
Definition sum_quantity (exs : list Exchange.t) : Z :=
  foldr (λ ex acc, Exchange.quantity ex + acc) 0 exs.

(** [sorted(l, key=key, reverse=True)]: Python's sort is stable, also in
    reverse, so the result is the one list that holds the elements of [l] by
    non-increasing key with equal keys in their original order.  It is
    computed here by insertion from the right: an element goes in front of
    the first element whose key is not greater than its own. *)
Fixpoint insert_reverse {A} (key : A → Z) (x : A) (l : list A) : list A :=
  match l with
  | [] => [x]
  | y :: l' => if decide (key x < key y) then y :: insert_reverse key x l' else x :: y :: l'
  end.

Definition sorted_reverse {A} (key : A → Z) (l : list A) : list A :=
  foldr (insert_reverse key) [] l.

(** *** True division of integers

    [int(a / b)] on two Python integers: [/] is the true division, whose
    result is the binary64 number nearest to the exact quotient (ties to
    even); [int] then truncates toward zero.  The quotient is rounded with
    the Standard Library's IEEE 754 specification, applied to the two exact
    integers. *)

(** An integer as the exact operand of the division: mantissa [|a|],
    exponent 0, not yet rounded. *)
Definition float_of_int (a : Z) : spec_float :=
  match a with
  | Z0 => S754_zero false
  | Zpos p => S754_finite false p 0
  | Zneg p => S754_finite true p 0
  end.

(** [int(f)]: truncation toward zero.  A quotient beyond the range of
    binary64 makes the division itself raise [OverflowError]. *)
Definition int_of_float (f : spec_float) : result Z :=
  match f with
  | S754_zero _ => Ok 0
  | S754_finite s m e => Ok (cond_Zopp s (Z.shiftl (Zpos m) e))
  | S754_infinity _ => Raise OverflowError
  | S754_nan => Raise ValueError
  end.

Definition py_int_truediv (a b : Z) : result Z :=
  if decide (b = 0) then Raise ZeroDivisionError
  else int_of_float (SFdiv 53 1024 (float_of_int a) (float_of_int b)).

(** ** A state and exception monad

    A Python method mutates its object and may raise; what it mutated
    before raising stays mutated.  A computation therefore returns the final
    state together with either a value or the exception. *)
Definition ST (S A : Type) : Type := S → result A * S.

#[global] Instance ST_ret {S} : MRet (ST S) := λ A a s, (Ok a, s).
#[global] Instance ST_bind {S} : MBind (ST S) := λ A B f m s,
  match m s with
  | (Ok a, s') => f a s'
  | (Raise e, s') => (Raise e, s')
  end.

Definition raise {S A} (e : exn) : ST S A := λ s, (Raise e, s).
Definition get {S} : ST S S := λ s, (Ok s, s).
Definition put {S} (s : S) : ST S () := λ _, (Ok (), s).

(** [for x in l: body(x)] *)
Fixpoint for_each {S A} (l : list A) (body : A → ST S ()) : ST S () :=
  match l with
  | [] => mret ()
  | x :: l' => body x ;; for_each l' body
  end.

(** ** LedgerExchange *)

Module LedgerExchange.

(** [self.ledger]: [production_id -> {exchange_id -> Exchange}] *)
Abbreviation t := (gmap uuid (gmap uuid Exchange.t)).

Definition init : t := ∅.

Definition add (ex : Exchange.t) : ST t () :=
  ledger ← get;
  (if decide (Exchange.production_id ex ∈ dom ledger) then mret ()
   else put (<[Exchange.production_id ex := ∅]> ledger)) ;;
  ledger ← get;
  match ledger !! Exchange.production_id ex with
  | None => raise KeyError
  | Some stored =>
      if decide (Exchange.id ex ∈ dom stored) then raise ValueError
      else put (<[Exchange.production_id ex := <[Exchange.id ex := ex]> stored]> ledger)
  end.

Definition add_all (exs : list Exchange.t) : ST t () := for_each exs add.

Definition delete (ex : Exchange.t) : ST t () :=
  ledger ← get;
  if decide (Exchange.production_id ex ∈ dom ledger) then
    match ledger !! Exchange.production_id ex with
    | None => raise KeyError
    | Some stored =>
        if decide (Exchange.id ex ∈ dom stored)
        then put (<[Exchange.production_id ex := base.delete (Exchange.id ex) stored]> ledger)
        else raise KeyError
    end
  else mret ().

Definition delete_all (exs : list Exchange.t) : ST t () := for_each exs delete.

Definition sum_production (production_id : uuid) (ledger : t) : Z :=
  match ledger !! production_id with
  | None => 0
  | Some stored => map_fold (λ _ ex acc, Exchange.quantity ex + acc) 0 stored
  end.

End LedgerExchange.

(** ** Broker *)

Module Broker.

(** The attributes of a broker.  [ask] is the request-response closure the
    dispatcher supplies: it answers an offer sent to a named node with a
    list of exchanges.  [uuid_generate] is the injected identifier source,
    given as the sequence of the identifiers it returns; [uuid_calls]
    counts the calls made so far.  [tell] has no field: what a handler
    tells is recorded in the trace. *)
Record t := mk {
  name : name;
  ask : string → ProposalOffer.t → list Exchange.t;
  uuid_generate : nat → uuid;
  uuid_calls : nat;
  consumptions : list Consumption.t;
  raw_productions : list Production.t;
  borders : list Border.t;
  ledger_exchanges : LedgerExchange.t;
  min_exchange : Z;
  state : NodeState.t
}.

Definition set_uuid_calls (n : nat) (b : t) : t :=
  mk (name b) (ask b) (uuid_generate b) n (consumptions b) (raw_productions b)
     (borders b) (ledger_exchanges b) (min_exchange b) (state b).

Definition set_ledger_exchanges (l : LedgerExchange.t) (b : t) : t :=
  mk (name b) (ask b) (uuid_generate b) (uuid_calls b) (consumptions b) (raw_productions b)
     (borders b) l (min_exchange b) (state b).

Definition set_state (s : NodeState.t) (b : t) : t :=
  mk (name b) (ask b) (uuid_generate b) (uuid_calls b) (consumptions b) (raw_productions b)
     (borders b) (ledger_exchanges b) (min_exchange b) s.

(** Messages a broker sends, and the trace of a handler. *)
Inductive message :=
  | MProposal (p : Proposal.t)
  | MCancel (c : ConsumerCanceledExchange.t).

Inductive effect :=
  | Tell (to : string) (mes : message)
  | Ask (to : string) (mes : ProposalOffer.t).

Record world := World { self : t; trace : list effect }.

Abbreviation M := (ST world).

Definition this : M t := λ w, (Ok (self w), w).

Definition modify (f : t → t) : M () := λ w, (Ok (), World (f (self w)) (trace w)).

Definition lift {A} (r : result A) : M A := λ w, (r, w).

(** [self.tell(to=..., mes=...)] *)
Definition tell (to : string) (mes : message) : M () :=
  λ w, (Ok (), World (self w) (trace w ++ [Tell to mes])).

(** [self.ask(to=..., mes=...)] *)
Definition call_ask (to : string) (mes : ProposalOffer.t) : M (list Exchange.t) :=
  λ w, (Ok (ask (self w) to mes), World (self w) (trace w ++ [Ask to mes])).

(** [self.uuid_generate()] *)
Definition call_uuid_generate : M uuid :=
  b ← this;
  modify (set_uuid_calls (S (uuid_calls b))) ;;
  mret (uuid_generate b (uuid_calls b)).

(** A method call on [self.ledger_exchanges]. *)
Definition on_ledger {A} (m : ST LedgerExchange.t A) : M A := λ w,
  let '(r, l) := m (ledger_exchanges (self w)) in
  (r, World (set_ledger_exchanges l (self w)) (trace w)).

(** [[body for i in range(0, n)]] *)
Fixpoint comprehension {A} (n : nat) (body : M A) : M (list A) :=
  match n with
  | O => mret []
  | S n' => x ← body; xs ← comprehension n' body; mret (x :: xs)
  end.

Definition find_exchanges (prods : list Production.t) : list Exchange.t :=
  omap Production.exchange prods.

Definition find_production (prods : list Production.t) (id : uuid) : result Production.t :=
  py_first (filter (λ x, Production.id x = id) prods).

Definition send_proposal (productions : list Production.t) (path_node : list string) : M () :=
  b ← this;
  for_each (borders b) (λ bd,
    let proposals :=
      (λ prod, Proposal.mk (Production.id prod)
                           (Production.cost prod + Border.cost bd)
                           (Production.quantity prod)
                           ([name b] ++ path_node)) <$> productions in
    for_each proposals (λ prop,
      if negb (py_in (PyBorder bd) (PyStr <$> Proposal.path_node prop))
      then tell (Border.dest bd) (MProposal prop)
      else mret ())).

Definition init : M () :=
  b ← this;
  send_proposal (NodeState.productions_free (state b)) [].

Definition generate_exchanges (production_id : uuid) (quantity : Z)
    (path_node : list string) : M (list Exchange.t) :=
  b ← this;
  length ← lift (py_int_truediv quantity (min_exchange b));
  exchanges ← comprehension (Z.to_nat length)
    (id ← call_uuid_generate;
     mret (Exchange.mk (min_exchange b) id production_id path_node));
  let remain := quantity - length * min_exchange b in
  if decide (remain ≠ 0) then
    id ← call_uuid_generate;
    mret (exchanges ++ [Exchange.mk remain id production_id path_node])
  else mret exchanges.

Definition receive_proposal_offer (proposal : ProposalOffer.t) : M (list Exchange.t) :=
  if decide (1 < Z.of_nat (length (ProposalOffer.path_node proposal))) then
    let forward :=
      ProposalOffer.mk (ProposalOffer.production_id proposal) (ProposalOffer.cost proposal)
        (ProposalOffer.quantity proposal) (drop 1 (ProposalOffer.path_node proposal))
        (ProposalOffer.return_path_node proposal) in
    to ← lift (py_first (ProposalOffer.path_node forward));
    call_ask to forward
  else
    b ← this;
    free ← lift (find_production (NodeState.productions_free (state b))
                                 (ProposalOffer.production_id proposal));
    let quantity_free := Production.quantity free in
    let quantity_used :=
      LedgerExchange.sum_production (ProposalOffer.production_id proposal)
                                    (ledger_exchanges b) in
    let quantity_exchange := Z.min (ProposalOffer.quantity proposal)
                                   (quantity_free - quantity_used) in
    ex ← generate_exchanges (ProposalOffer.production_id proposal) quantity_exchange
                            (ProposalOffer.return_path_node proposal);
    (if decide (0 < quantity_exchange) then on_ledger (LedgerExchange.add_all ex)
     else mret ()) ;;
    mret ex.

Definition send_remain_proposal (proposal : Proposal.t) (asked_quantity given_quantity : Z)
    : M () :=
  if decide (asked_quantity < Proposal.quantity proposal ∧ asked_quantity = given_quantity)
  then
    let prod := Production.mk (Proposal.cost proposal)
                              (Proposal.quantity proposal - asked_quantity)
                              Local (Proposal.production_id proposal) None in
    send_proposal [prod] (Proposal.path_node proposal)
  else mret ().

(** The dictionary [productions] of [send_cancel_exchange] keeps its keys
    in insertion order, which is the order the cancellations are sent in:
    an association list with one entry per key. *)
Definition regroup (productions : list (uuid * (list Exchange.t * list string)))
    (ex : Exchange.t) : list (uuid * (list Exchange.t * list string)) :=
  let productions :=
    if decide (Exchange.production_id ex ∈ productions.*1) then productions
    else productions ++ [(Exchange.production_id ex, ([], []))] in
  (λ entry,
     if decide (entry.1 = Exchange.production_id ex)
     then (entry.1, (entry.2.1 ++ [ex], Exchange.path_node ex))
     else entry) <$> productions.

Definition send_cancel_exchange (exchanges : list Exchange.t) : M () :=
  let productions := foldl regroup [] exchanges in
  for_each productions (λ entry,
    let cancel := ConsumerCanceledExchange.mk entry.2.1 entry.2.2 in
    to ← lift (py_first entry.2.2);
    tell to (MCancel cancel)).

Definition receive_cancel_exchange (cancel : ConsumerCanceledExchange.t) : M () :=
  if decide (1 < Z.of_nat (length (ConsumerCanceledExchange.path_node cancel))) then
    let cancel := ConsumerCanceledExchange.mk (ConsumerCanceledExchange.exchanges cancel)
                    (drop 1 (ConsumerCanceledExchange.path_node cancel)) in
    to ← lift (py_first (ConsumerCanceledExchange.path_node cancel));
    tell to (MCancel cancel)
  else
    on_ledger (LedgerExchange.delete_all (ConsumerCanceledExchange.exchanges cancel)) ;;
    let quantity := sum_quantity (ConsumerCanceledExchange.exchanges cancel) in
    first ← lift (py_first (ConsumerCanceledExchange.exchanges cancel));
    let prod_id := Exchange.production_id first in
    b ← this;
    cost ← lift (py_first (Production.cost <$>
                   filter (λ p, Production.id p = prod_id) (raw_productions b)));
    let prod_free := Production.mk cost quantity Local prod_id None in
    send_proposal [prod_free] [].

Section Solver.

(** The local adequacy optimizer, an external collaborator of the
    broker ([from adequacy import optimize_adequacy]). *)
Variable optimize_adequacy : list Consumption.t → list Production.t → NodeState.t.

Definition make_offer (proposal : Proposal.t) (new_state : NodeState.t) : M () :=
  b ← this;
  prod_asked ← lift (find_production (NodeState.productions_used new_state)
                                     (Proposal.production_id proposal));
  let prop_asked :=
    ProposalOffer.mk (Proposal.production_id proposal) (Proposal.cost proposal)
      (Production.quantity prod_asked) (Proposal.path_node proposal)
      (slice_down (Proposal.path_node proposal) (-2) ++ [name b]) in
  to ← lift (py_first (Proposal.path_node proposal));
  exchanges ← call_ask to prop_asked;
  let exchanges :=
    (λ ex, Exchange.mk (Exchange.quantity ex) (Exchange.id ex)
             (Exchange.production_id ex) (Proposal.path_node proposal)) <$> exchanges in
  let prod :=
    (λ ex, Production.mk (ProposalOffer.cost prop_asked) (Exchange.quantity ex)
             ExchangeBacked (Exchange.production_id ex) (Some ex)) <$> exchanges in
  modify (set_state
    (optimize_adequacy (consumptions b)
       (prod ++ NodeState.productions_used (state b)
             ++ NodeState.productions_free (state b)))) ;;
  let exchanges_quantity := sum_quantity exchanges in
  send_remain_proposal proposal (ProposalOffer.quantity prop_asked) exchanges_quantity ;;
  b ← this;
  let useless_exchanges := find_exchanges (NodeState.productions_free (state b)) in
  send_cancel_exchange useless_exchanges.

Definition receive_proposal (proposal : Proposal.t) : M () :=
  b ← this;
  let prod := Production.mk (Proposal.cost proposal) (Proposal.quantity proposal)
                Import (Proposal.production_id proposal) None in
  let new_state :=
    optimize_adequacy (consumptions b)
      ([prod] ++ NodeState.productions_used (state b)
              ++ NodeState.productions_free (state b)) in
  if decide (NodeState.cost new_state < NodeState.cost (state b))
  then make_offer proposal new_state
  else send_proposal [prod] (Proposal.path_node proposal).

End Solver.

(** [sum(used.quantity for used in self.state.productions_used if used.id == p.id)] *)
Definition used_quantity (b : t) (id : uuid) : Z :=
  foldr (λ used acc, Production.quantity used + acc) 0
        (filter (λ used, Production.id used = id) (NodeState.productions_used (state b))).

Definition compute_total : M (list Consumption.t * list Production.t * list Border.t) :=
  b ← this;
  let productions :=
    (λ p, Production.mk (Production.cost p)
            (used_quantity b (Production.id p)
             + LedgerExchange.sum_production (Production.id p) (ledger_exchanges b))
            (Production.type p) (Production.id p) (Production.exchange p))
    <$> raw_productions b in
  mret (consumptions b, productions, []).

(** [generate_production_id(productions, uuid_generate)]: every production
    gets the next identifier; [calls] counts the identifiers drawn before. *)
Definition generate_production_id (productions : list Production.t)
    (uuid_generate : nat → uuid) (calls : nat) : list Production.t * nat :=
  (imap (λ i p, Production.mk (Production.cost p) (Production.quantity p) (Production.type p)
                  (uuid_generate (calls + i)%nat) (Production.exchange p)) productions,
   (calls + length productions)%nat).

Definition copy_production (production : Production.t) (quantity : Z) : Production.t :=
  Production.mk (Production.cost production) quantity (Production.type production)
                (Production.id production) (Production.exchange production).

Section Construction.

Variable optimize_adequacy : list Consumption.t → list Production.t → NodeState.t.

(** [Broker(name, tell, ask, uuid_generate, ledger_exchange, min_exchange,
    consumptions, productions, borders)]; [ledger_exchange] is [None] by
    default, and the identifier source is fresh. *)
Definition __init__ (name : string) (ask : string → ProposalOffer.t → list Exchange.t)
    (uuid_generate : nat → uuid) (ledger_exchange : option LedgerExchange.t)
    (min_exchange : Z) (consumptions : list Consumption.t)
    (productions : list Production.t) (borders : list Border.t) : t :=
  let consumptions := sorted_reverse Consumption.cost consumptions in
  let '(raw_productions, calls) := generate_production_id productions uuid_generate 0 in
  mk name ask uuid_generate calls consumptions raw_productions borders
     (default LedgerExchange.init ledger_exchange) min_exchange
     (optimize_adequacy consumptions raw_productions).

End Construction.

End Broker.

(** ** Dispatcher

    The actor of [src/hadar/solver/actor.py], as far as it drives the broker:
    [on_receive] routes each message to its handler and returns the reply. *)

Module Dispatcher.

Inductive message :=
  | Start
  | Snapshot
  | Next
  | ProposalOffer (m : ProposalOffer.t)
  | Proposal (m : Proposal.t)
  | ConsumerCanceledExchange (m : ConsumerCanceledExchange.t).

Inductive reply :=
  | NoReply
  | Self (b : Broker.t)
  | Total (name : string)
          (total : list Consumption.t * list Production.t * list Border.t)
  | Exchanges (ex : list Exchange.t).

Section Solver.

Variable optimize_adequacy : list Consumption.t → list Production.t → NodeState.t.

Definition on_receive (message : message) : Broker.M reply :=
  match message with
  | Start => Broker.init ;; mret NoReply
  | Snapshot => b ← Broker.this; mret (Self b)
  | Next => b ← Broker.this; total ← Broker.compute_total; mret (Total (Broker.name b) total)
  | ProposalOffer m => ex ← Broker.receive_proposal_offer m; mret (Exchanges ex)
  | Proposal m => Broker.receive_proposal optimize_adequacy m ;; mret NoReply
  | ConsumerCanceledExchange m => Broker.receive_cancel_exchange m ;; mret NoReply
  end.

End Solver.

End Dispatcher.

(** * Vocabulary of the properties *)

Import Broker.

(** The exchange recorded under a [(production_id, exchange_id)] pair. *)
Definition stored (production_id id : uuid) (ledger : LedgerExchange.t) : option Exchange.t :=
  ledger !! production_id ≫= λ exs, exs !! id.

Definition quantity_sum (exs : gmap uuid Exchange.t) : Z :=
  map_fold (λ _ ex acc, Exchange.quantity ex + acc) 0 exs.

(** The (production_id, exchange_id) pair that names an exchange. *)
Definition pair_of (ex : Exchange.t) : uuid * uuid :=
  (Exchange.production_id ex, Exchange.id ex).

(** No exchange of the ledger has a negative quantity. *)
Definition ledger_nonneg (ledger : LedgerExchange.t) : Prop :=
  ∀ production_id id ex, stored production_id id ledger = Some ex → 0 ≤ Exchange.quantity ex.

(** The free productions of the current NodeState that stand for a local
    production do not exceed it. *)
Definition free_within_local (b : Broker.t) : Prop :=
  ∀ p free, p ∈ raw_productions b → free ∈ NodeState.productions_free (state b) →
            Production.id free = Production.id p →
            Production.quantity free ≤ Production.quantity p.

(** The ledger bound of the specification. *)
Definition ledger_bound (b : Broker.t) : Prop :=
  ∀ p, p ∈ raw_productions b →
       LedgerExchange.sum_production (Production.id p) (ledger_exchanges b)
       ≤ Production.quantity p.

(** The proposal [send_proposal] builds for one production and one border. *)
Definition proposal_for (b : Broker.t) (path_node : list string) (bd : Border.t)
    (prod : Production.t) : Proposal.t :=
  Proposal.mk (Production.id prod) (Production.cost prod + Border.cost bd)
              (Production.quantity prod) (name b :: path_node).

(** One [Tell] per border and production, border by border. *)
Definition proposals_told (b : Broker.t) (productions : list Production.t)
    (path_node : list string) : list effect :=
  bd ← borders b;
  (λ prod, Tell (Border.dest bd) (MProposal (proposal_for b path_node bd prod))) <$> productions.

(** The groups [send_cancel_exchange] collects keep, each, a nonempty list
    of exchanges of the group's production and the path of the exchange
    appended last. *)
Definition group_ok (entry : uuid * (list Exchange.t * list string)) : Prop :=
  (∀ ex, ex ∈ entry.2.1 → Exchange.production_id ex = entry.1) ∧
  ∃ ex, last entry.2.1 = Some ex ∧ Exchange.path_node ex = entry.2.2.

(** The cancellations [send_cancel_exchange] constructs, in the order of
    its second loop. *)
Definition cancellations (exchanges : list Exchange.t) : list ConsumerCanceledExchange.t :=
  (λ entry, ConsumerCanceledExchange.mk entry.2.1 entry.2.2) <$> foldl regroup [] exchanges.

(** A cancellation the producing hop can handle: its exchanges are not
    empty, belong to one production, and one of them carries the path of the
    message; in particular [exchanges[0]] exists. *)
Definition well_grouped (cancel : ConsumerCanceledExchange.t) : Prop :=
  ConsumerCanceledExchange.exchanges cancel ≠ [] ∧
  (∃ production_id, ∀ ex, ex ∈ ConsumerCanceledExchange.exchanges cancel →
                          Exchange.production_id ex = production_id) ∧
  (∃ ex, ex ∈ ConsumerCanceledExchange.exchanges cancel ∧
         Exchange.path_node ex = ConsumerCanceledExchange.path_node cancel) ∧
  (∃ first, py_first (ConsumerCanceledExchange.exchanges cancel) = Ok first).

(** The position of the quotient [n / d] between its floor and the next integer. *)
Definition loc_of (n d : Z) : location :=
  if n mod d =? 0 then loc_Exact else loc_Inexact (2 * (n mod d) ?= d).

(** The attributes of a broker that are set when it is constructed and
    that no handler assigns. *)
Definition same_configuration (b b' : Broker.t) : Prop :=
  name b' = name b ∧
  ask b' = ask b ∧
  uuid_generate b' = uuid_generate b ∧
  consumptions b' = consumptions b ∧
  raw_productions b' = raw_productions b ∧
  borders b' = borders b ∧
  min_exchange b' = min_exchange b.


(** * Concrete nodes used in the examples *)

Definition no_reply : string → ProposalOffer.t → list Exchange.t := λ _ _, [].

(** A solver that uses nothing: every production handed in stays free, at
    cost 0. *)
Definition idle_solver (_ : list Consumption.t) (productions : list Production.t)
    : NodeState.t :=
  NodeState.mk 0 [] productions.

(** A ledger that holds one exchange of 5 units for production 7. *)
Definition ledger_7 : LedgerExchange.t :=
  {[ 7%nat := {[ 1%nat := Exchange.mk 5 1 7 ["A"] ]} ]}.

(** Node B, with borders to A and to C. *)
Definition node_B : Broker.t :=
  Broker.mk "B" no_reply (λ n, n) 0 [] []
            [Border.mk "A" 1 10; Border.mk "C" 1 10] ∅ 1 (NodeState.mk 0 [] []).

(** A producer P with 10 units of production 7, of which its current state
    leaves 1 unit free, and that has already committed 4 units to a
    neighbour; exchanges come in chunks of 2. *)
Definition node_P : Broker.t :=
  Broker.mk "P" no_reply (λ n, n) 0 []
            [Production.mk 1 10 Local 7 None]
            [Border.mk "A" 1 10]
            {[ 7%nat := {[ 100%nat := Exchange.mk 4 100 7 ["A"] ]} ]}
            2
            (NodeState.mk 9 [Production.mk 1 9 Local 7 None] [Production.mk 1 1 Local 7 None]).

(** A producer Q with 10 units of production 7: 4 used at home, 6 free, of
    which 2 are committed already. *)
Definition node_Q : Broker.t :=
  Broker.mk "Q" no_reply (λ n, n) 0 []
            [Production.mk 1 10 Local 7 None]
            [Border.mk "A" 1 10]
            {[ 7%nat := {[ 100%nat := Exchange.mk 2 100 7 ["A"] ]} ]}
            2
            (NodeState.mk 4 [Production.mk 1 4 Local 7 None] [Production.mk 1 6 Local 7 None]).

(** A node whose exchanges come in chunks of [2**60]. *)
Definition node_huge : Broker.t :=
  Broker.mk "P" no_reply (λ n, n) 0 [] [] [] ∅ (2 ^ 60) (NodeState.mk 0 [] []).

(** A producer P of [2**60 - 1] units of production 7, all of them free and
    none committed, whose exchanges come in chunks of [2**60]. *)
Definition node_huge_producer : Broker.t :=
  Broker.mk "P" no_reply (λ n, n) 0 []
            [Production.mk 1 (2 ^ 60 - 1) Local 7 None]
            [Border.mk "A" 1 10]
            ∅
            (2 ^ 60)
            (NodeState.mk 0 [] [Production.mk 1 (2 ^ 60 - 1) Local 7 None]).

(** * Properties *)

(** ** Running the monad *)

Lemma bind_run {S A B} (m : ST S A) (f : A → ST S B) (s : S) :
  (m ≫= f) s =
  match m s with
  | (Ok a, s') => f a s'
  | (Raise e, s') => (Raise e, s')
  end.
Proof. reflexivity. Qed.

Lemma for_each_cons {S A} (x : A) (l : list A) (body : A → ST S ()) (s : S) :
  for_each (x :: l) body s =
  match body x s with
  | (Ok _, s') => for_each l body s'
  | (Raise e, s') => (Raise e, s')
  end.
Proof. reflexivity. Qed.

Lemma this_run w : this w = (Ok (self w), w).
Proof. reflexivity. Qed.

Lemma lift_run {A} (r : result A) w : lift r w = (r, w).
Proof. reflexivity. Qed.

Lemma tell_run to mes w : tell to mes w = (Ok (), World (self w) (trace w ++ [Tell to mes])).
Proof. reflexivity. Qed.

Lemma call_ask_run to mes w :
  call_ask to mes w = (Ok (ask (self w) to mes), World (self w) (trace w ++ [Ask to mes])).
Proof. reflexivity. Qed.

Lemma modify_run f w : modify f w = (Ok (), World (f (self w)) (trace w)).
Proof. reflexivity. Qed.

Lemma call_uuid_generate_run w :
  call_uuid_generate w =
  (Ok (uuid_generate (self w) (uuid_calls (self w))),
   World (set_uuid_calls (S (uuid_calls (self w))) (self w)) (trace w)).
Proof. reflexivity. Qed.

(** ** True division

    Sanity checks of the division: [int(7 / 2)], [int(-3 / 2)] (truncation
    toward zero), [int(10 / 5)], and the rounding of a quotient that binary64
    cannot represent: [(2**60 - 1) / 2**60] is the float 1.0. *)

Example py_int_truediv_7_2 : py_int_truediv 7 2 = Ok 3.
Proof. reflexivity. Qed.

Example py_int_truediv_neg3_2 : py_int_truediv (-3) 2 = Ok (-1).
Proof. reflexivity. Qed.

Example py_int_truediv_10_5 : py_int_truediv 10 5 = Ok 2.
Proof. reflexivity. Qed.

Example py_int_truediv_by_zero : py_int_truediv 10 0 = Raise ZeroDivisionError.
Proof. reflexivity. Qed.

Example py_int_truediv_rounds_up : py_int_truediv (2 ^ 60 - 1) (2 ^ 60) = Ok 1.
Proof. vm_compute. reflexivity. Qed.

(** An integer beyond 53 binary digits loses its last bit; operands beyond
    the range of binary64 are divided exactly; a quotient beyond it raises. *)
Example py_int_truediv_loses_a_bit : py_int_truediv (2 ^ 53 + 1) 1 = Ok (2 ^ 53).
Proof. vm_compute. reflexivity. Qed.

Example py_int_truediv_of_huge_operands : py_int_truediv (2 ^ 2000) (2 ^ 1999) = Ok 2.
Proof. vm_compute. reflexivity. Qed.

Example py_int_truediv_overflow : py_int_truediv (2 ^ 2000) 1 = Raise OverflowError.
Proof. vm_compute. reflexivity. Qed.

Lemma py_int_truediv_zero (b : Z) : b ≠ 0 → py_int_truediv 0 b = Ok 0.
Proof.
  intros Hb. unfold py_int_truediv. rewrite decide_False by done. by destruct b.
Qed.

(** The truncated quotient of two positive integers is not negative. *)
Lemma py_int_truediv_nonneg a b n :
  0 < a → 0 < b → py_int_truediv a b = Ok n → 0 ≤ n.
Proof.
  intros Ha Hb. unfold py_int_truediv. rewrite decide_False by lia.
  destruct a as [|pa|pa]; try lia. destruct b as [|pb|pb]; try lia.
  cbn [float_of_int SFdiv xorb].
  destruct (SFdiv_core_binary 53 1024 (Z.pos pa) 0 (Z.pos pb) 0) as [[mz ez] lz].
  unfold binary_round_aux.
  destruct (shr_fexp 53 1024 mz ez lz) as [mrs e'].
  destruct (shr_fexp 53 1024 _ e' loc_Exact) as [mrs' e''].
  destruct (shr_m mrs') as [|m|m]; cbn [int_of_float]; try discriminate.
  - by intros [= <-].
  - destruct (e'' <=? 1024 - 53); cbn [int_of_float]; [|discriminate].
    intros [= <-]. cbn [cond_Zopp]. by apply Z.shiftl_nonneg.
Qed.

(** *** Below [2^53]

    Where the dividend has at most 53 binary digits, the binary64 quotient
    truncates to the integer quotient: the rounding never reaches the next
    integer.  The proof follows the steps of [SFdiv]: the scaled integer
    quotient and its position, the shift to 53 digits, the rounding to
    nearest even, the renormalisation. *)

Lemma digits2_pos_bounds (p : positive) :
  2 ^ (Z.pos (digits2_pos p) - 1) ≤ Z.pos p < 2 ^ Z.pos (digits2_pos p).
Proof.
  induction p as [p IH|p IH|]; cbn [digits2_pos].
  - rewrite Pos2Z.inj_succ.
    replace (Z.succ (Z.pos (digits2_pos p)) - 1) with (Z.succ (Z.pos (digits2_pos p) - 1)) by lia.
    rewrite !Z.pow_succ_r by lia. lia.
  - rewrite Pos2Z.inj_succ.
    replace (Z.succ (Z.pos (digits2_pos p)) - 1) with (Z.succ (Z.pos (digits2_pos p) - 1)) by lia.
    rewrite !Z.pow_succ_r by lia. lia.
  - simpl. lia.
Qed.

Lemma Zdigits2_bounds (x : Z) :
  0 < x → 1 ≤ Zdigits2 x ∧ 2 ^ (Zdigits2 x - 1) ≤ x < 2 ^ Zdigits2 x.
Proof.
  destruct x as [|p|p]; try lia. intros _. cbn [Zdigits2].
  split; [lia | apply digits2_pos_bounds].
Qed.

Lemma Zdigits2_le (x n : Z) : 0 < x → x < 2 ^ n → Zdigits2 x ≤ n.
Proof.
  intros Hx Hlt. destruct (Zdigits2_bounds x Hx) as (Hd & Hlo & _).
  destruct (Z.le_gt_cases (Zdigits2 x) n) as [|Hgt]; [done|].
  assert (2 ^ n ≤ 2 ^ (Zdigits2 x - 1)) by (apply Z.pow_le_mono_r; lia). lia.
Qed.

Lemma new_location_spec (b R : Z) :
  0 ≤ R < b →
  new_location b R = if R =? 0 then loc_Exact else loc_Inexact (2 * R ?= b).
Proof.
  intros HR. unfold new_location, new_location_even, new_location_odd.
  destruct (Z.even b) eqn:Heven; [done|].
  destruct (R =? 0); [done|]. f_equal.
  assert (Z.odd b = true) as Hodd by (rewrite <- Z.negb_even, Heven; done).
  apply Z.odd_spec in Hodd as [c ->].
  destruct (2 * R + 1 ?= 2 * c + 1) eqn:Hc; symmetry.
  - rewrite Z.compare_eq_iff in Hc. rewrite Z.compare_lt_iff. lia.
  - rewrite Z.compare_lt_iff in Hc. rewrite Z.compare_lt_iff. lia.
  - rewrite Z.compare_gt_iff in Hc. rewrite Z.compare_gt_iff. lia.
Qed.

Lemma shr_1_loc_of (n d : Z) :
  0 ≤ n → 0 < d →
  shr_1 (shr_record_of_loc (n / d) (loc_of n d)) =
  shr_record_of_loc (n / (2 * d)) (loc_of n (2 * d)).
Proof.
  intros Hn Hd.
  assert (0 ≤ n / d) as Hq by (apply Z.div_pos; lia).
  assert (n / (2 * d) = n / d / 2) as Hdiv by (rewrite Z.mul_comm, Z.div_div; lia).
  assert (n mod (2 * d) = d * ((n / d) mod 2) + n mod d) as Hmod.
  { rewrite Z.mul_comm. rewrite Z.rem_mul_r by lia. lia. }
  pose proof (Z.mod_pos_bound n d Hd) as HR.
  pose proof (Z.div_mod (n / d) 2 ltac:(lia)) as Hq2.
  pose proof (Z.mod_pos_bound (n / d) 2 ltac:(lia)) as Hbit.
  rewrite Hdiv. unfold loc_of at 2. rewrite Hmod.
  set (q := n / d) in *. set (R := n mod d) in *.
  assert (shr_1 (shr_record_of_loc q (loc_of n d)) =
          Build_shr_record (q / 2) (q mod 2 =? 1) (negb (R =? 0))) as ->.
  { unfold loc_of. fold R.
    assert (∀ r s, shr_1 (Build_shr_record q r s) =
                   Build_shr_record (q / 2) (q mod 2 =? 1) (r || s)) as Hshr.
    { intros r s. destruct q as [|[p|p|]|p]; try lia; cbn [shr_1].
      - done.
      - f_equal. rewrite Pos2Z.inj_xI. rewrite Z.add_comm, Z.mul_comm, Z.div_add by lia. done.
        rewrite Pos2Z.inj_xI. rewrite Z.add_comm, Z.mul_comm, Z.mod_add by lia. done.
      - f_equal. rewrite Pos2Z.inj_xO. rewrite Z.mul_comm, Z.div_mul by lia. done.
        rewrite Pos2Z.inj_xO. rewrite Z.mul_comm, Z.mod_mul by lia. done.
      - done. }
    destruct (R =? 0) eqn:HR0; cbn [shr_record_of_loc negb].
    - by rewrite Hshr.
    - destruct (2 * R ?= d); cbn [shr_record_of_loc]; by rewrite Hshr. }
  assert (q mod 2 = 0 ∨ q mod 2 = 1) as [Hb|Hb] by lia; rewrite Hb.
  - replace (d * 0 + R) with R by lia. cbn [Z.eqb].
    destruct (R =? 0) eqn:HR0; cbn [negb shr_record_of_loc]; [done|].
    apply Z.eqb_neq in HR0.
    assert ((2 * R ?= 2 * d) = Lt) as -> by (rewrite Z.compare_lt_iff; lia). done.
  - replace (d * 1 + R) with (d + R) by lia. cbn [Z.eqb Pos.eqb].
    assert ((d + R =? 0) = false) as -> by (apply Z.eqb_neq; lia).
    destruct (R =? 0) eqn:HR0; cbn [negb].
    + apply Z.eqb_eq in HR0.
      assert ((2 * (d + R) ?= 2 * d) = Eq) as -> by (rewrite Z.compare_eq_iff; lia). done.
    + apply Z.eqb_neq in HR0.
      assert ((2 * (d + R) ?= 2 * d) = Gt) as -> by (rewrite Z.compare_gt_iff; lia). done.
Qed.

Lemma loc_of_shr_record_of_loc m l : loc_of_shr_record (shr_record_of_loc m l) = l.
Proof. by destruct l as [|[]]. Qed.

Lemma shr_m_shr_record_of_loc m l : shr_m (shr_record_of_loc m l) = m.
Proof. by destruct l as [|[]]. Qed.

(** A shift by at most one position keeps the exact position of the quotient. *)
Lemma shr_loc_of (n d e k : Z) :
  0 ≤ n → 0 < d → k ≤ 1 →
  ∃ j, (j = 0 ∧ k ≤ 0 ∨ j = 1 ∧ k = 1) ∧
       shr (shr_record_of_loc (n / d) (loc_of n d)) e k =
       (shr_record_of_loc (n / (2 ^ j * d)) (loc_of n (2 ^ j * d)), e + j).
Proof.
  intros Hn Hd Hk. destruct (decide (k = 1)) as [->|Hne].
  - exists 1. split; [by right|]. cbn [shr iter_pos]. rewrite shr_1_loc_of by done. done.
  - exists 0. split; [left; lia|].
    replace (2 ^ 0 * d) with d by lia. rewrite Z.add_0_r.
    destruct k as [|p|p]; try done. lia.
Qed.

Lemma round_nearest_even_loc_of (n d : Z) :
  0 < d →
  round_nearest_even (n / d) (loc_of n d) = n / d ∨
  round_nearest_even (n / d) (loc_of n d) = n / d + 1 ∧ d ≤ 2 * (n mod d).
Proof.
  intros Hd. unfold loc_of. destruct (n mod d =? 0); [by left|].
  destruct (2 * (n mod d) ?= d) eqn:Hc; cbn [round_nearest_even].
  - rewrite Z.compare_eq_iff in Hc. destruct (Z.even (n / d)); [by left | right; lia].
  - by left.
  - rewrite Z.compare_gt_iff in Hc. right. lia.
Qed.

Lemma fexp_binary64 e : fexp 53 1024 e = Z.max (e - 53) (-1074).
Proof. reflexivity. Qed.

(** Renormalising a mantissa of at most [2^53] keeps its value. *)
Lemma shr_fexp_exact (m e : Z) mrs e' :
  0 ≤ m ≤ 2 ^ 53 → -1074 ≤ e →
  shr_fexp 53 1024 m e loc_Exact = (mrs, e') →
  0 ≤ shr_m mrs ∧ e' ≤ e + 1 ∧ Z.shiftl (shr_m mrs) e' = Z.shiftl m e.
Proof.
  intros Hm He. unfold shr_fexp. rewrite fexp_binary64.
  destruct (decide (m = 2 ^ 53)) as [->|Hne].
  - replace (Zdigits2 (2 ^ 53)) with 54 by done.
    replace (Z.max (54 + e - 53) (-1074) - e) with 1 by lia.
    assert (shr (shr_record_of_loc (2 ^ 53) loc_Exact) e 1 =
            (Build_shr_record (2 ^ 52) false false, e + 1)) as -> by reflexivity.
    intros [= <- <-]. cbn [shr_m]. split; [by apply Z.pow_nonneg|]. split; [lia|].
    replace (2 ^ 53) with (Z.shiftl (2 ^ 52) 1) by done.
    rewrite Z.shiftl_shiftl by lia. f_equal. lia.
  - assert (Zdigits2 m ≤ 53) as Hd.
    { destruct (decide (m = 0)) as [->|]; [done|]. apply Zdigits2_le; lia. }
    assert (Z.max (Zdigits2 m + e - 53) (-1074) - e ≤ 0) as Hk by lia.
    destruct (Z.max _ _ - e) as [|p|p]; try lia; cbn [shr shr_record_of_loc];
      intros [= <- <-]; cbn [shr_m]; (split; [lia|split; [lia|done]]).
Qed.

(** Rounding the scaled quotient to nearest and truncating it back gives the
    integer quotient, as long as the dividend has at most 53 binary digits. *)
Lemma round_then_truncate (a b d1 d2 s j M : Z) :
  0 < a → 0 < b →
  1 ≤ d1 ≤ 53 → 2 ^ (d1 - 1) ≤ a < 2 ^ d1 →
  1 ≤ d2 → 2 ^ (d2 - 1) ≤ b < 2 ^ d2 →
  s = - Z.max (d1 - d2 - 53) (-1074) →
  j = 0 ∨ j = 1 →
  M = a * 2 ^ s / (2 ^ j * b) ∨
    M = a * 2 ^ s / (2 ^ j * b) + 1 ∧ 2 ^ j * b ≤ 2 * ((a * 2 ^ s) mod (2 ^ j * b)) →
  Z.shiftl M (- s + j) = a / b.
Proof.
  intros Ha Hb Hd1 Ha2 Hd2 Hb2 Hs Hj HM.
  set (k := s - j).
  assert (0 ≤ k) as Hk by lia.
  assert (0 < 2 ^ k) as Hpk by (apply Z.pow_pos_nonneg; lia).
  assert (0 < 2 ^ j) as Hpj by (apply Z.pow_pos_nonneg; lia).
  assert (a * 2 ^ s = 2 ^ j * (a * 2 ^ k)) as Hn.
  { replace s with (j + k) by lia. rewrite Z.pow_add_r by lia. lia. }
  rewrite Hn in HM. rewrite Z.div_mul_cancel_l, Z.mul_mod_distr_l in HM by lia.
  replace (- s + j) with (- k) by lia.
  rewrite Z.shiftl_div_pow2 by lia. rewrite Z.opp_involutive.
  pose proof (Z.div_mod a b ltac:(lia)) as Hab.
  pose proof (Z.mod_pos_bound a b Hb) as Ht.
  set (n0 := a / b) in *. set (t := a mod b) in *.
  assert (a * 2 ^ k = n0 * 2 ^ k * b + t * 2 ^ k) as Hy by (rewrite Hab; lia).
  rewrite Hy in HM. rewrite Z.div_add_l in HM by lia.
  rewrite (Z.add_comm (n0 * 2 ^ k * b)), Z.mod_add in HM by lia.
  pose proof (Z.div_mod (t * 2 ^ k) b ltac:(lia)) as Hu.
  pose proof (Z.mod_pos_bound (t * 2 ^ k) b Hb) as Ht'.
  set (u := t * 2 ^ k / b) in *. set (t' := (t * 2 ^ k) mod b) in *.
  assert (0 ≤ u < 2 ^ k) as Hubound.
  { split; [apply Z.div_pos; lia|]. apply Z.div_lt_upper_bound; [lia|]. nia. }
  assert (M = n0 * 2 ^ k + u ∨ M = n0 * 2 ^ k + (u + 1) ∧ u + 1 < 2 ^ k) as [->| [-> Hsmall]].
  { destruct HM as [->|[-> Hhalf]]; [left; lia|]. right. split; [lia|].
    destruct (Z.lt_ge_cases (u + 1) (2 ^ k)) as [|Hge]; [done|]. exfalso.
    assert (u = 2 ^ k - 1) as Hueq by lia.
    assert ((b - t) * 2 ^ (k + 1) ≤ b) as Hcontra.
    { rewrite Z.pow_add_r by lia. change (2 ^ 1) with 2. nia. }
    assert (b < (b - t) * 2 ^ (k + 1)); [|lia].
    destruct (Z.le_gt_cases (-1074) (d1 - d2 - 53)) as [Hnormal|Hsub].
    - assert (2 ^ d2 ≤ 2 ^ (k + 1)) by (apply Z.pow_le_mono_r; lia). nia.
    - assert (2 ^ 1 ≤ 2 ^ (k + 1)) as Hp2 by (apply Z.pow_le_mono_r; lia).
      change (2 ^ 1) with 2 in Hp2.
      assert (2 ^ d1 ≤ 2 ^ (d2 - 2)) as Hpd by (apply Z.pow_le_mono_r; lia).
      assert (2 ^ (d2 - 1) = 2 * 2 ^ (d2 - 2)) as Hd21.
      { replace (d2 - 1) with (Z.succ (d2 - 2)) by lia. rewrite Z.pow_succ_r by lia. done. }
      pose proof (Z.mod_le a b ltac:(lia) Hb) as Hta. fold t in Hta.
      assert (b < 2 * (b - t)) by lia.
      assert (0 < b - t) by lia. nia. }
  - rewrite Z.div_add_l by lia. rewrite Z.div_small by lia. lia.
  - rewrite Z.div_add_l by lia. rewrite Z.div_small by lia. lia.
Qed.

Lemma SFdiv_truncated_exact (pa pb : positive) :
  Z.pos pa < 2 ^ 53 →
  int_of_float (SFdiv 53 1024 (S754_finite false pa 0) (S754_finite false pb 0))
  = Ok (Z.pos pa / Z.pos pb).
Proof.
  intros Ha53.
  destruct (Zdigits2_bounds (Z.pos pa) ltac:(lia)) as (Hd1 & Ha2).
  destruct (Zdigits2_bounds (Z.pos pb) ltac:(lia)) as (Hd2 & Hb2).
  pose proof (Zdigits2_le (Z.pos pa) 53 ltac:(lia) Ha53) as Hd153.
  cbn [SFdiv xorb]. unfold SFdiv_core_binary.
  set (a := Z.pos pa) in *. set (b := Z.pos pb) in *.
  set (d1 := Zdigits2 a) in *. set (d2 := Zdigits2 b) in *.
  set (e0 := Z.max (d1 - d2 - 53) (-1074)).
  assert (Z.min (fexp 53 1024 (d1 + 0 - (d2 + 0))) (0 - 0) = e0) as ->
    by (rewrite fexp_binary64; lia).
  assert (∃ ps, 0 - 0 - e0 = Z.pos ps) as [ps Hps].
  { destruct (0 - 0 - e0) as [|ps|ps] eqn:Hs; [lia | by exists ps | lia]. }
  rewrite Hps. rewrite Z.shiftl_mul_pow2 by lia.
  set (s := Z.pos ps) in *.
  assert (s = - e0) as Hs by lia.
  assert (1 ≤ s ≤ 1074 ∧ s ≤ 53 - d1 + d2) as (Hs1 & Hs2) by lia.
  set (n := a * 2 ^ s).
  assert (0 < 2 ^ s) as Hps2 by (apply Z.pow_pos_nonneg; lia).
  assert (0 ≤ n) as Hn by (unfold n; lia).
  assert (IntDef.Z.div_eucl n b = (n / b, n mod b)) as ->.
  { unfold Z.div, Z.modulo. by destruct (Z.div_eucl n b). }
  rewrite new_location_spec by (apply Z.mod_pos_bound; lia).
  change (if n mod b =? 0 then loc_Exact else loc_Inexact (2 * (n mod b) ?= b))
    with (loc_of n b).
  (* the quotient has at most 54 digits *)
  assert (n < 2 ^ 54 * b) as Hn54.
  { assert (2 ^ (d1 + s) ≤ 2 ^ (53 + d2)) as Hp by (apply Z.pow_le_mono_r; lia).
    rewrite !Z.pow_add_r in Hp by lia.
    assert (2 ^ d2 = 2 * 2 ^ (d2 - 1)) as Hd21.
    { replace d2 with (Z.succ (d2 - 1)) at 1 by lia. rewrite Z.pow_succ_r by lia. done. }
    change (2 ^ 54) with (2 * 2 ^ 53). unfold n. nia. }
  assert (0 ≤ n / b < 2 ^ 54) as HQ.
  { split; [apply Z.div_pos; lia|]. apply Z.div_lt_upper_bound; lia. }
  assert (Zdigits2 (n / b) ≤ 54) as HdQ.
  { destruct (decide (n / b = 0)) as [->|]; [done|]. apply Zdigits2_le; lia. }
  unfold binary_round_aux, shr_fexp at 1. rewrite fexp_binary64.
  destruct (shr_loc_of n b e0 (Z.max (Zdigits2 (n / b) + e0 - 53) (-1074) - e0)
              Hn ltac:(lia) ltac:(lia)) as (j & Hj & ->).
  rewrite shr_m_shr_record_of_loc, loc_of_shr_record_of_loc.
  assert (0 < 2 ^ j * b) as Hd by (destruct Hj as [[-> _]|[-> _]]; lia).
  assert (n / (2 ^ j * b) < 2 ^ 53) as Hm1.
  { destruct Hj as [[-> Hk]|[-> _]].
    - replace (2 ^ 0 * b) with b by lia.
      destruct (decide (n / b = 0)) as [->|Hne]; [done|].
      destruct (Zdigits2_bounds (n / b) ltac:(lia)) as (_ & _ & Hlt).
      assert (2 ^ Zdigits2 (n / b) ≤ 2 ^ 53) by (apply Z.pow_le_mono_r; lia). lia.
    - apply Z.div_lt_upper_bound; [lia|]. change (2 ^ 54) with (2 ^ 53 * 2 ^ 1) in Hn54. lia. }
  assert (0 ≤ n / (2 ^ j * b)) as Hm0 by (apply Z.div_pos; lia).
  pose proof (round_nearest_even_loc_of n (2 ^ j * b) Hd) as HM.
  set (M := round_nearest_even _ _) in *.
  destruct (shr_fexp 53 1024 M (e0 + j) loc_Exact) as [mrs2 e2] eqn:H2.
  apply shr_fexp_exact in H2 as (Hpos & He2 & Hval); [|lia|lia].
  assert (Z.shiftl M (e0 + j) = a / b) as HMval.
  { replace (e0 + j) with (- s + j) by lia.
    apply (round_then_truncate a b d1 d2 s j M); try done; lia. }
  rewrite HMval in Hval.
  destruct (shr_m mrs2) as [|m|m] eqn:Hm; [| |lia].
  - cbn [int_of_float]. rewrite Z.shiftl_0_l in Hval. by rewrite <- Hval.
  - assert ((e2 <=? 1024 - 53) = true) as -> by (apply Z.leb_le; lia).
    cbn [int_of_float cond_Zopp]. by rewrite Hval.
Qed.

Lemma py_int_truediv_exact (a b : Z) :
  0 ≤ a < 2 ^ 53 → 0 < b → py_int_truediv a b = Ok (a / b).
Proof.
  intros Ha Hb. unfold py_int_truediv. rewrite decide_False by lia.
  destruct b as [|pb|pb]; try lia. destruct a as [|pa|pa]; try lia.
  - done.
  - apply SFdiv_truncated_exact. lia.
Qed.

(** ** The ledger *)

Lemma quantity_sum_insert (exs : gmap uuid Exchange.t) id ex :
  exs !! id = None →
  quantity_sum (<[id := ex]> exs) = Exchange.quantity ex + quantity_sum exs.
Proof.
  intros Hnone. unfold quantity_sum.
  rewrite map_fold_insert_L; [done | intros; lia | done].
Qed.

Lemma quantity_sum_delete (exs : gmap uuid Exchange.t) id ex :
  exs !! id = Some ex →
  quantity_sum exs = Exchange.quantity ex + quantity_sum (delete id exs).
Proof.
  intros Hsome. unfold quantity_sum.
  rewrite (map_fold_delete_L _ _ id ex exs); [done | intros; lia | done].
Qed.

Lemma sum_production_unfold pid (ledger : LedgerExchange.t) :
  LedgerExchange.sum_production pid ledger = from_option quantity_sum 0 (ledger !! pid).
Proof. unfold LedgerExchange.sum_production. by destruct (ledger !! pid). Qed.

(** What one [add] does, by cases on the pair being stored already. *)
Lemma add_run ex (ledger : LedgerExchange.t) :
  LedgerExchange.add ex ledger =
  match stored (Exchange.production_id ex) (Exchange.id ex) ledger with
  | Some _ => (Raise ValueError, ledger)
  | None =>
      (Ok (), <[Exchange.production_id ex :=
                 <[Exchange.id ex := ex]> (default ∅ (ledger !! Exchange.production_id ex))]>
               ledger)
  end.
Proof.
  unfold LedgerExchange.add, stored, mbind, ST_bind, get, put, raise, mret, ST_ret.
  destruct (ledger !! Exchange.production_id ex) as [exs|] eqn:Hp; simpl.
  - rewrite decide_True by (apply elem_of_dom; eauto). rewrite Hp.
    destruct (exs !! Exchange.id ex) as [old|] eqn:Hi.
    + rewrite decide_True by (apply elem_of_dom; eauto). done.
    + rewrite decide_False by (rewrite elem_of_dom, Hi; by intros [? ?]). done.
  - rewrite decide_False by (rewrite elem_of_dom, Hp; by intros [? ?]).
    rewrite lookup_insert_eq.
    rewrite decide_False by (rewrite dom_empty_L; set_solver).
    by rewrite insert_insert_eq.
Qed.

(** What one [delete] does: an unknown production is skipped, a known pair
    is removed, an unknown exchange of a known production raises. *)
Lemma delete_run ex (ledger : LedgerExchange.t) :
  LedgerExchange.delete ex ledger =
  match ledger !! Exchange.production_id ex with
  | None => (Ok (), ledger)
  | Some exs =>
      match exs !! Exchange.id ex with
      | Some _ => (Ok (), <[Exchange.production_id ex := delete (Exchange.id ex) exs]> ledger)
      | None => (Raise KeyError, ledger)
      end
  end.
Proof.
  unfold LedgerExchange.delete, mbind, ST_bind, get, put, raise, mret, ST_ret.
  destruct (ledger !! Exchange.production_id ex) as [exs|] eqn:Hp; simpl.
  - rewrite decide_True by (apply elem_of_dom; eauto).
    destruct (exs !! Exchange.id ex) as [old|] eqn:Hi.
    + rewrite decide_True by (apply elem_of_dom; eauto). done.
    + rewrite decide_False by (rewrite elem_of_dom, Hi; by intros [? ?]). done.
  - rewrite decide_False by (rewrite elem_of_dom, Hp; by intros [? ?]). done.
Qed.

Lemma stored_insert pid id ex exs (ledger : LedgerExchange.t) p i :
  stored p i (<[pid := <[id := ex]> exs]> ledger) =
  if decide (p = pid) then (if decide (i = id) then Some ex else exs !! i)
  else stored p i ledger.
Proof.
  unfold stored. destruct (decide (p = pid)) as [->|Hne].
  - rewrite lookup_insert_eq. simpl. destruct (decide (i = id)) as [->|?].
    + by rewrite lookup_insert_eq.
    + by rewrite lookup_insert_ne.
  - by rewrite lookup_insert_ne.
Qed.

(** C8. [LedgerExchange.add] raises when the exchange's
    (production_id, exchange_id) pair is already stored, and then leaves the
    ledger, hence the stored entry, as it was; under a pair not yet present
    it succeeds, records the exchange under that pair and touches no other
    pair. *)
Theorem add_duplicate_raises_fresh_records ex (ledger : LedgerExchange.t) :
  (is_Some (stored (Exchange.production_id ex) (Exchange.id ex) ledger) →
   LedgerExchange.add ex ledger = (Raise ValueError, ledger)) ∧
  (stored (Exchange.production_id ex) (Exchange.id ex) ledger = None →
   ∃ ledger',
     LedgerExchange.add ex ledger = (Ok (), ledger') ∧
     stored (Exchange.production_id ex) (Exchange.id ex) ledger' = Some ex ∧
     ∀ p i, (p, i) ≠ (Exchange.production_id ex, Exchange.id ex) →
            stored p i ledger' = stored p i ledger).
Proof.
  rewrite add_run. split.
  - intros [old Hold]. by rewrite Hold.
  - intros Hnone. rewrite Hnone. eexists. split; [done|]. split.
    + rewrite stored_insert. by rewrite !decide_True.
    + intros p i Hne. rewrite stored_insert.
      destruct (decide (p = _)) as [->|?]; [|done].
      rewrite decide_False by congruence.
      unfold stored. by destruct (ledger !! Exchange.production_id ex).
Qed.

Lemma add_duplicate_raises_fresh_records_witness :
  LedgerExchange.add (Exchange.mk 5 1 7 ["A"]) ledger_7 = (Raise ValueError, ledger_7) ∧
  ∃ ledger',
    LedgerExchange.add (Exchange.mk 3 2 7 ["C"]) ledger_7 = (Ok (), ledger') ∧
    stored 7 2 ledger' = Some (Exchange.mk 3 2 7 ["C"]) ∧
    ∀ p i, (p, i) ≠ (7%nat, 2%nat) → stored p i ledger' = stored p i ledger_7.
Proof.
  split.
  - apply (proj1 (add_duplicate_raises_fresh_records (Exchange.mk 5 1 7 ["A"]) ledger_7)).
    eexists. reflexivity.
  - apply (proj2 (add_duplicate_raises_fresh_records (Exchange.mk 3 2 7 ["C"]) ledger_7)).
    reflexivity.
Defined.

Lemma stored_delete pid id exs (ledger : LedgerExchange.t) p i :
  ledger !! pid = Some exs →
  stored p i (<[pid := delete id exs]> ledger) =
  if decide ((p, i) = (pid, id)) then None else stored p i ledger.
Proof.
  intros Hp. unfold stored. destruct (decide (p = pid)) as [->|Hne].
  - rewrite lookup_insert_eq, Hp. simpl. destruct (decide (i = id)) as [->|?].
    + rewrite decide_True by done. apply lookup_delete_eq.
    + rewrite decide_False by congruence. by apply lookup_delete_ne.
  - rewrite lookup_insert_ne by done. rewrite decide_False by congruence. done.
Qed.

(** A [delete_all] that completes leaves the prior ledger minus the listed
    pairs. *)
Lemma delete_all_completed exs : ∀ (ledger ledger' : LedgerExchange.t),
  LedgerExchange.delete_all exs ledger = (Ok (), ledger') →
  ∀ p i, stored p i ledger' =
         if decide ((p, i) ∈ pair_of <$> exs) then None else stored p i ledger.
Proof.
  unfold LedgerExchange.delete_all.
  induction exs as [|ex exs IH]; intros ledger ledger' Hrun p i.
  - simpl in Hrun. injection Hrun as <-. rewrite decide_False; [done | set_solver].
  - rewrite for_each_cons, delete_run in Hrun. rewrite fmap_cons.
    assert (stored p i ledger' =
            if decide ((p, i) ∈ pair_of <$> exs) then None
            else if decide ((p, i) = pair_of ex) then None else stored p i ledger) as ->.
    { destruct (ledger !! Exchange.production_id ex) as [stored_exs|] eqn:Hp.
      - destruct (stored_exs !! Exchange.id ex) as [old|] eqn:Hi; [|done].
        by rewrite (IH _ _ Hrun), (stored_delete _ _ _ _ _ _ Hp).
      - rewrite (IH _ _ Hrun). destruct (decide ((p, i) = pair_of ex)) as [Heq|Hne]; [|done].
        injection Heq as -> ->. unfold stored. rewrite Hp. simpl. by case_decide. }
    destruct (decide ((p, i) ∈ pair_of <$> exs)) as [Hin|Hnin],
             (decide ((p, i) = pair_of ex)) as [Heq|Hne].
    + rewrite decide_True; [done | apply elem_of_cons; auto].
    + rewrite decide_True; [done | apply elem_of_cons; auto].
    + rewrite decide_True; [done | apply elem_of_cons; auto].
    + rewrite decide_False; [done | rewrite elem_of_cons; by intros [?|?]].
Qed.

(** Deleting an exchange that is absent under a production the ledger knows
    raises [KeyError]. *)
Lemma delete_absent_exchange_raises ex exs (ledger : LedgerExchange.t) :
  ledger !! Exchange.production_id ex = Some exs →
  exs !! Exchange.id ex = None →
  LedgerExchange.delete ex ledger = (Raise KeyError, ledger).
Proof. intros Hp Hi. by rewrite delete_run, Hp, Hi. Qed.

(** C3. Deleting an exchange that is missing from the ledger fails when its
    production is known: with exchange 1 recorded for production 7,
    [delete_all] of the unrecorded exchange 2 of that production raises
    [KeyError] instead of skipping it. *)
Theorem delete_all_missing_exchange_raises :
  LedgerExchange.delete_all [Exchange.mk 5 2 7 ["A"]] ledger_7 = (Raise KeyError, ledger_7).
Proof. reflexivity. Qed.

(** The same exchange cancelled a second time: the first delete leaves the
    emptied dictionary of the production behind, the second raises. *)
Example delete_all_twice_raises :
  fst (LedgerExchange.delete_all [Exchange.mk 5 1 7 ["A"]; Exchange.mk 5 1 7 ["A"]] ledger_7)
  = Raise KeyError.
Proof. reflexivity. Qed.

(** An exchange of a production the ledger has never seen is skipped. *)
Example delete_all_unknown_production_skipped :
  LedgerExchange.delete_all [Exchange.mk 5 1 8 ["A"]] ledger_7 = (Ok (), ledger_7).
Proof. reflexivity. Qed.

Lemma add_sum ex (ledger ledger' : LedgerExchange.t) :
  LedgerExchange.add ex ledger = (Ok (), ledger') →
  ∀ p, LedgerExchange.sum_production p ledger' =
       LedgerExchange.sum_production p ledger
       + if decide (p = Exchange.production_id ex) then Exchange.quantity ex else 0.
Proof.
  rewrite add_run. unfold stored.
  destruct (ledger !! Exchange.production_id ex) as [exs|] eqn:Hp; simpl.
  - destruct (exs !! Exchange.id ex) as [old|] eqn:Hi; [done|].
    intros [= <-] p. rewrite !sum_production_unfold. case_decide as Heq.
    + subst p. rewrite lookup_insert_eq, Hp. simpl. rewrite quantity_sum_insert by done. lia.
    + rewrite lookup_insert_ne by done. lia.
  - intros [= <-] p. rewrite !sum_production_unfold. case_decide as Heq.
    + subst p. rewrite lookup_insert_eq, Hp. simpl.
      rewrite quantity_sum_insert by apply lookup_empty.
      unfold quantity_sum. rewrite map_fold_empty. lia.
    + rewrite lookup_insert_ne by done. lia.
Qed.

Lemma add_all_sum production_id exs : ∀ (ledger ledger' : LedgerExchange.t),
  (∀ ex, ex ∈ exs → Exchange.production_id ex = production_id) →
  LedgerExchange.add_all exs ledger = (Ok (), ledger') →
  ∀ p, LedgerExchange.sum_production p ledger' =
       LedgerExchange.sum_production p ledger
       + if decide (p = production_id) then sum_quantity exs else 0.
Proof.
  unfold LedgerExchange.add_all.
  induction exs as [|ex exs IH]; intros ledger ledger' Hids Hrun p.
  - injection Hrun as <-. simpl. case_decide; lia.
  - rewrite for_each_cons in Hrun.
    destruct (LedgerExchange.add ex ledger) as [[[]|err] ledger1] eqn:Hadd; [|done].
    rewrite (IH _ _ (λ ex' Hin, Hids ex' (list_elem_of_further _ _ _ Hin)) Hrun p).
    rewrite (add_sum _ _ _ Hadd p), (Hids ex (list_elem_of_here _ _)).
    change (sum_quantity (ex :: exs)) with (Exchange.quantity ex + sum_quantity exs).
    case_decide; lia.
Qed.

Lemma delete_sum ex (ledger ledger' : LedgerExchange.t) r :
  ledger_nonneg ledger →
  LedgerExchange.delete ex ledger = (r, ledger') →
  ledger_nonneg ledger' ∧
  ∀ p, LedgerExchange.sum_production p ledger' ≤ LedgerExchange.sum_production p ledger.
Proof.
  intros Hnonneg. rewrite delete_run.
  destruct (ledger !! Exchange.production_id ex) as [exs|] eqn:Hp.
  - destruct (exs !! Exchange.id ex) as [old|] eqn:Hi.
    + intros [= <- <-]. split.
      * intros p i ex'. rewrite (stored_delete _ _ _ _ _ _ Hp).
        case_decide; [done | apply Hnonneg].
      * intros p. rewrite !sum_production_unfold.
        destruct (decide (p = Exchange.production_id ex)) as [->|Hne].
        -- rewrite lookup_insert_eq, Hp. simpl.
           rewrite (quantity_sum_delete exs _ _ Hi).
           assert (0 ≤ Exchange.quantity old); [|lia].
           apply (Hnonneg (Exchange.production_id ex) (Exchange.id ex)).
           unfold stored. rewrite Hp. done.
        -- rewrite lookup_insert_ne by done. lia.
    + intros [= <- <-]. split; [done | intros; lia].
  - intros [= <- <-]. split; [done | intros; lia].
Qed.

Lemma delete_all_sum exs : ∀ (ledger ledger' : LedgerExchange.t) r,
  ledger_nonneg ledger →
  LedgerExchange.delete_all exs ledger = (r, ledger') →
  ledger_nonneg ledger' ∧
  ∀ p, LedgerExchange.sum_production p ledger' ≤ LedgerExchange.sum_production p ledger.
Proof.
  unfold LedgerExchange.delete_all.
  induction exs as [|ex exs IH]; intros ledger ledger' r Hnonneg Hrun.
  - injection Hrun as <- <-. split; [done | intros; lia].
  - rewrite for_each_cons in Hrun.
    destruct (LedgerExchange.delete ex ledger) as [[[]|err] ledger1] eqn:Hdel.
    + destruct (delete_sum _ _ _ _ Hnonneg Hdel) as [Hnonneg1 Hle1].
      destruct (IH _ _ _ Hnonneg1 Hrun) as [Hnonneg' Hle']. split; [done|].
      intros p. specialize (Hle1 p). specialize (Hle' p). lia.
    + injection Hrun as <- <-. by apply (delete_sum _ _ _ _ Hnonneg Hdel).
Qed.

(** ** Sending proposals *)

(** A border object is never found among the names of a path. *)
Lemma py_in_border_among_names bd (names : list string) :
  py_in (PyBorder bd) (PyStr <$> names) = false.
Proof. induction names as [|n names IH]; [done | simpl; exact IH]. Qed.

Lemma tell_proposals_run b path_node bd (productions : list Production.t) : ∀ w,
  for_each ((λ prod, Proposal.mk (Production.id prod)
                       (Production.cost prod + Border.cost bd)
                       (Production.quantity prod) ([name b] ++ path_node)) <$> productions)
    (λ prop,
       if negb (py_in (PyBorder bd) (PyStr <$> Proposal.path_node prop))
       then tell (Border.dest bd) (MProposal prop)
       else mret ()) w
  = (Ok (), World (self w)
       (trace w ++ ((λ prod, Tell (Border.dest bd) (MProposal (proposal_for b path_node bd prod)))
                    <$> productions))).
Proof.
  induction productions as [|prod productions IH]; intros [s tr].
  - simpl. by rewrite app_nil_r.
  - rewrite fmap_cons, for_each_cons. cbn [Proposal.path_node].
    rewrite py_in_border_among_names. cbn [negb tell self trace].
    rewrite IH. cbn [self trace]. rewrite fmap_cons, <- app_assoc. done.
Qed.

(** [send_proposal] never raises, leaves the broker as it is, and tells every
    border one proposal per production. *)
Lemma send_proposal_run productions path_node w :
  send_proposal productions path_node w =
  (Ok (), World (self w) (trace w ++ proposals_told (self w) productions path_node)).
Proof.
  unfold send_proposal, proposals_told.
  destruct w as [b tr]. unfold mbind at 1, ST_bind, this. cbn [self trace].
  generalize (borders b) as bds. intros bds. revert tr.
  induction bds as [|bd bds IH]; intros tr.
  - simpl. by rewrite app_nil_r.
  - rewrite for_each_cons, tell_proposals_run. cbn [self trace].
    rewrite IH. rewrite bind_cons, app_assoc. done.
Qed.

Lemma proposals_told_single b prod path_node :
  proposals_told b [prod] path_node =
  (λ bd, Tell (Border.dest bd) (MProposal (proposal_for b path_node bd prod))) <$> borders b.
Proof.
  unfold proposals_told. induction (borders b) as [|bd bds IH]; [done|].
  rewrite bind_cons, IH. done.
Qed.

(** C1. A proposal is sent to a border whose destination is on its path:
    node B, forwarding production 7 that came from A (path [A]), tells A a
    proposal whose path_node is [B; A].  The membership test compares the
    border object with the names of the path and never suppresses. *)
Theorem send_proposal_tells_a_node_on_the_path :
  send_proposal [Production.mk 2 10 Import 7 None] ["A"] (World node_B []) =
  (Ok (), World node_B [Tell "A" (MProposal (Proposal.mk 7 3 10 ["B"; "A"]));
                        Tell "C" (MProposal (Proposal.mk 7 3 10 ["B"; "A"]))]).
Proof. reflexivity. Qed.

(** C7. When the state computed with the proposed production does not cost
    strictly less than the current state, [receive_proposal] completes with
    the broker (its NodeState and its ledger included) exactly as it was;
    all it does is tell each border the proposal, with the border's cost
    added and with path_node grown by the node's own name. *)
Theorem receive_proposal_without_improvement
    (optimize_adequacy : list Consumption.t → list Production.t → NodeState.t)
    (proposal : Proposal.t) (w : world) :
  let prod := Production.mk (Proposal.cost proposal) (Proposal.quantity proposal)
                Import (Proposal.production_id proposal) None in
  let new_state :=
    optimize_adequacy (consumptions (self w))
      ([prod] ++ NodeState.productions_used (state (self w))
              ++ NodeState.productions_free (state (self w))) in
  ¬ NodeState.cost new_state < NodeState.cost (state (self w)) →
  receive_proposal optimize_adequacy proposal w =
  (Ok (), World (self w)
     (trace w ++
      ((λ bd, Tell (Border.dest bd)
                (MProposal (Proposal.mk (Proposal.production_id proposal)
                              (Proposal.cost proposal + Border.cost bd)
                              (Proposal.quantity proposal)
                              (name (self w) :: Proposal.path_node proposal))))
       <$> borders (self w)))).
Proof.
  intros prod new_state Hcost. unfold receive_proposal.
  unfold mbind at 1, ST_bind, this. fold prod. fold new_state.
  rewrite decide_False by done.
  by rewrite send_proposal_run, proposals_told_single.
Qed.

Lemma receive_proposal_without_improvement_witness :
  ¬ NodeState.cost (idle_solver [] [Production.mk 2 10 Import 7 None]) < 0 ∧
  receive_proposal idle_solver (Proposal.mk 7 2 10 ["A"]) (World node_B []) =
  (Ok (), World node_B [Tell "A" (MProposal (Proposal.mk 7 3 10 ["B"; "A"]));
                        Tell "C" (MProposal (Proposal.mk 7 3 10 ["B"; "A"]))]).
Proof.
  split.
  - simpl. lia.
  - apply (receive_proposal_without_improvement idle_solver
             (Proposal.mk 7 2 10 ["A"]) (World node_B [])).
    simpl. lia.
Defined.

(** ** The remainder of a proposal *)

(** [send_remain_proposal] never raises and only tells. *)
Lemma send_remain_proposal_frame (proposal : Proposal.t) (asked_quantity given_quantity : Z)
    (w : world) :
  ∃ told, send_remain_proposal proposal asked_quantity given_quantity w =
          (Ok (), World (self w) (trace w ++ told)).
Proof.
  unfold send_remain_proposal. case_decide.
  - rewrite send_proposal_run. by eexists.
  - exists []. destruct w. simpl. by rewrite app_nil_r.
Qed.

(** C9 (amended). [send_remain_proposal] never raises and leaves the broker
    as it is.  When [asked_quantity < proposal.quantity] and
    [asked_quantity = given_quantity] it tells each border a new proposal for
    the leftover quantity, at the proposal's cost plus the border's cost and
    with path_node grown by the node's own name; otherwise (in particular
    when the producer gave less than asked) it sends nothing. *)
Theorem send_remain_proposal_forwards_leftover (proposal : Proposal.t)
    (asked_quantity given_quantity : Z) (w : world) :
  send_remain_proposal proposal asked_quantity given_quantity w =
  (Ok (), World (self w)
     (trace w ++
      if decide (asked_quantity < Proposal.quantity proposal ∧ asked_quantity = given_quantity)
      then (λ bd, Tell (Border.dest bd)
                    (MProposal (Proposal.mk (Proposal.production_id proposal)
                                  (Proposal.cost proposal + Border.cost bd)
                                  (Proposal.quantity proposal - asked_quantity)
                                  (name (self w) :: Proposal.path_node proposal))))
           <$> borders (self w)
      else [])).
Proof.
  unfold send_remain_proposal. case_decide.
  - by rewrite send_proposal_run, proposals_told_single.
  - destruct w. simpl. by rewrite app_nil_r.
Qed.

(** C9, as stated, fails: node B takes 3 of the 10 units A proposed at cost 5
    and is given 3.  The remainder it forwards costs 6 on either border, not
    the original 5, and its path_node is [B; A], not the existing [A]. *)
Lemma send_remain_proposal_not_at_original_cost :
  let w' := (send_remain_proposal (Proposal.mk 7 5 10 ["A"]) 3 3 (World node_B [])).2 in
  (3 < 10 ∧ 3 = 3) ∧
  trace w' = [Tell "A" (MProposal (Proposal.mk 7 6 7 ["B"; "A"]));
              Tell "C" (MProposal (Proposal.mk 7 6 7 ["B"; "A"]))] ∧
  ¬ ∃ to p, Tell to (MProposal p) ∈ trace w' ∧ Proposal.cost p = 5.
Proof.
  cbv zeta. split; [lia|]. split; [reflexivity|].
  intros (to & p & Hin & Hcost). vm_compute in Hin.
  apply elem_of_cons in Hin as [Heq | Hin]; [by simplify_eq/=|].
  apply elem_of_cons in Hin as [Heq | Hin]; [by simplify_eq/=|].
  by apply elem_of_nil in Hin.
Qed.

(** ** Cancellations *)

Lemma regroup_ok productions ex :
  Forall group_ok productions → Forall group_ok (regroup productions ex).
Proof.
  intros Hall. unfold regroup.
  assert (∀ entries,
            Forall (λ entry, (∀ ex', ex' ∈ entry.2.1 → Exchange.production_id ex' = entry.1) ∧
                             (entry.1 ≠ Exchange.production_id ex → group_ok entry)) entries →
            Forall group_ok
              ((λ entry, if decide (entry.1 = Exchange.production_id ex)
                         then (entry.1, (entry.2.1 ++ [ex], Exchange.path_node ex))
                         else entry) <$> entries)) as Hmap.
  { intros entries Hentries. apply Forall_fmap. eapply Forall_impl; [exact Hentries|].
    intros [k [exs path]] [Hids Hk]. simpl in *. case_decide as Hkey; [|by apply Hk].
    split; simpl.
    - intros ex' [Hin | ->%list_elem_of_singleton]%elem_of_app; [by apply Hids | done].
    - exists ex. by rewrite last_snoc. }
  assert (Forall (λ entry, (∀ ex', ex' ∈ entry.2.1 → Exchange.production_id ex' = entry.1) ∧
                           (entry.1 ≠ Exchange.production_id ex → group_ok entry)) productions)
    as Hweak.
  { eapply Forall_impl; [exact Hall|]. intros entry Hok. split; [apply Hok | done]. }
  case_decide.
  - by apply Hmap.
  - apply Hmap. apply Forall_app. split; [done|].
    apply Forall_singleton. simpl. split; [|done].
    intros ex' Hin. by apply elem_of_nil in Hin.
Qed.

Lemma foldl_regroup_ok exchanges : ∀ productions,
  Forall group_ok productions → Forall group_ok (foldl regroup productions exchanges).
Proof.
  induction exchanges as [|ex exchanges IH]; intros productions Hall; [done|].
  simpl. apply IH. by apply regroup_ok.
Qed.

Lemma cancellations_well_grouped exchanges cancel :
  cancel ∈ cancellations exchanges → well_grouped cancel.
Proof.
  unfold cancellations. intros ([k [exs path]] & -> & Hin)%list_elem_of_fmap.
  pose proof (foldl_regroup_ok exchanges [] (Forall_nil_2 _)) as Hall.
  rewrite Forall_forall in Hall. destruct (Hall _ Hin) as [Hids (ex & Hlast & Hpath)].
  simpl in *. unfold well_grouped. simpl.
  destruct exs as [|first exs]; [done|].
  split; [done|]. split; [by exists k|]. split; [|by exists first].
  exists ex. split; [|done]. by eapply last_Some_elem_of.
Qed.

Lemma tell_cancellations_run (entries : list (uuid * (list Exchange.t * list string))) : ∀ w,
  ∃ r told,
    for_each entries (λ entry,
      to ← lift (py_first entry.2.2);
      tell to (MCancel (ConsumerCanceledExchange.mk entry.2.1 entry.2.2))) w
    = (r, World (self w) (trace w ++ told)) ∧
    (∀ e, e ∈ told → ∃ to entry,
        entry ∈ entries ∧ py_first entry.2.2 = Ok to ∧
        e = Tell to (MCancel (ConsumerCanceledExchange.mk entry.2.1 entry.2.2))) ∧
    (Forall (λ entry, entry.2.2 ≠ []) entries → r = Ok () ∧ length told = length entries).
Proof.
  induction entries as [|entry entries IH]; intros [b tr].
  - exists (Ok ()), []. simpl. rewrite app_nil_r. split; [done|].
    split; [|done]. intros e Hin. by apply elem_of_nil in Hin.
  - rewrite for_each_cons, bind_run, lift_run.
    destruct (py_first entry.2.2) as [to|err] eqn:Hfirst.
    + rewrite tell_run. cbn [self trace].
      destruct (IH (World b (tr ++ [Tell to (MCancel (ConsumerCanceledExchange.mk entry.2.1
                                                          entry.2.2))])))
        as (r & told & Hrun & Htold & Hall).
      cbn [self trace] in Hrun. rewrite Hrun.
      exists r, (Tell to (MCancel (ConsumerCanceledExchange.mk entry.2.1 entry.2.2)) :: told).
      cbn [self trace]. rewrite <- app_assoc. split; [done|]. split.
      * intros e [-> | Hin]%elem_of_cons.
        -- exists to, entry. split; [apply list_elem_of_here | done].
        -- destruct (Htold e Hin) as (to' & entry' & Hin' & Hfirst' & ->).
           exists to', entry'. split; [by apply list_elem_of_further | done].
      * intros [_ Hrest]%Forall_cons. destruct (Hall Hrest) as [-> Hlen].
        split; [done|]. simpl. by rewrite Hlen.
    + exists (Raise err), []. cbn [self trace]. rewrite app_nil_r. split; [done|].
      split; [intros e Hin; by apply elem_of_nil in Hin|].
      intros [Hne _]%Forall_cons. destruct entry.2.2; [done | discriminate].
Qed.

Lemma send_cancel_exchange_run (exchanges : list Exchange.t) (w : world) :
  ∃ r told,
    send_cancel_exchange exchanges w = (r, World (self w) (trace w ++ told)) ∧
    ∀ e, e ∈ told → ∃ to cancel,
      e = Tell to (MCancel cancel) ∧
      cancel ∈ cancellations exchanges ∧
      py_first (ConsumerCanceledExchange.path_node cancel) = Ok to.
Proof.
  unfold send_cancel_exchange.
  destruct (tell_cancellations_run (foldl regroup [] exchanges) w)
    as (r & told & Hrun & Htold & _).
  exists r, told. split; [exact Hrun|].
  intros e Hin. destruct (Htold e Hin) as (to & entry & Hentry & Hfirst & ->).
  exists to, (ConsumerCanceledExchange.mk entry.2.1 entry.2.2).
  split; [done|]. split; [|done].
  unfold cancellations. apply list_elem_of_fmap. by exists entry.
Qed.

(** C10. Every ConsumerCanceledExchange that [send_cancel_exchange]
    constructs holds a nonempty list of exchanges that share one
    production_id, and its path_node is the path_node of one of them; every
    message the function tells is such a cancellation, sent to the first hop
    of its path, so that [exchanges[0]] exists when it reaches the producing
    hop.  The broker itself is left as it was. *)
Theorem send_cancel_exchange_well_grouped (exchanges : list Exchange.t) (w : world) :
  (∀ cancel, cancel ∈ cancellations exchanges → well_grouped cancel) ∧
  ∃ r told,
    send_cancel_exchange exchanges w = (r, World (self w) (trace w ++ told)) ∧
    ∀ e, e ∈ told → ∃ to cancel,
      e = Tell to (MCancel cancel) ∧
      cancel ∈ cancellations exchanges ∧
      well_grouped cancel ∧
      py_first (ConsumerCanceledExchange.path_node cancel) = Ok to.
Proof.
  split; [intros cancel; apply cancellations_well_grouped|].
  destruct (send_cancel_exchange_run exchanges w) as (r & told & Hrun & Htold).
  exists r, told. split; [exact Hrun|].
  intros e Hin. destruct (Htold e Hin) as (to & cancel & -> & Hc & Hfirst).
  exists to, cancel. eauto using cancellations_well_grouped.
Qed.

(** Two exchanges of production 7 and one of production 8 are cancelled in
    two messages, grouped by production. *)
Example send_cancel_exchange_groups :
  send_cancel_exchange
    [Exchange.mk 1 1 7 ["A"]; Exchange.mk 1 2 8 ["C"]; Exchange.mk 1 3 7 ["A"]]
    (World node_B []) =
  (Ok (), World node_B
     [Tell "A" (MCancel (ConsumerCanceledExchange.mk
                           [Exchange.mk 1 1 7 ["A"]; Exchange.mk 1 3 7 ["A"]] ["A"]));
      Tell "C" (MCancel (ConsumerCanceledExchange.mk [Exchange.mk 1 2 8 ["C"]] ["C"]))]).
Proof. reflexivity. Qed.

(** ** Offers *)

Lemma slice_down_from_second_last {A} (l : list A) :
  slice_down l (-2) = rev (removelast l).
Proof.
  unfold slice_down. f_equal. rewrite removelast_firstn_len. f_equal.
  replace (-2 <? 0) with true by done.
  destruct l as [|x l]; [done|]. cbn [length]. lia.
Qed.

(** What [make_offer] does up to its request: it asks the first hop of the
    proposal's path for the quantity the new state uses. *)
Lemma make_offer_run
    (optimize_adequacy : list Consumption.t → list Production.t → NodeState.t)
    (proposal : Proposal.t) (new_state : NodeState.t) (w : world) prod_asked to rest :
  find_production (NodeState.productions_used new_state) (Proposal.production_id proposal)
    = Ok prod_asked →
  Proposal.path_node proposal = to :: rest →
  ∃ r st later,
    make_offer optimize_adequacy proposal new_state w =
    (r, World (set_state st (self w))
          (trace w ++
           Ask to (ProposalOffer.mk (Proposal.production_id proposal) (Proposal.cost proposal)
                     (Production.quantity prod_asked) (Proposal.path_node proposal)
                     (slice_down (Proposal.path_node proposal) (-2) ++ [name (self w)]))
           :: later)).
Proof.
  intros Hfind Hpath. unfold make_offer.
  rewrite bind_run, this_run, bind_run, lift_run, Hfind.
  rewrite bind_run, lift_run, Hpath. cbn [py_first]. rewrite <- Hpath.
  rewrite bind_run, call_ask_run. cbn [self trace].
  rewrite bind_run, modify_run. cbn [self trace].
  rewrite bind_run.
  match goal with |- context [send_remain_proposal ?p ?a ?g ?w'] =>
    destruct (send_remain_proposal_frame p a g w') as (remain & Hremain) end.
  cbn [self trace] in Hremain. rewrite Hremain.
  rewrite bind_run, this_run. cbn [self trace].
  match goal with |- context [send_cancel_exchange ?exs ?w'] =>
    destruct (send_cancel_exchange_run exs w') as (r & told & Hrun & _) end.
  cbn [self trace] in Hrun. rewrite Hrun.
  eexists r, _, _. rewrite <- !app_assoc. reflexivity.
Qed.

(** C6. The offer [make_offer] sends carries as return_path_node the reverse
    of the proposal's path_node without its last element (the producer),
    followed by the node's own name; for a one-element path_node this is just
    the node's own name. *)
Theorem make_offer_return_path_node
    (optimize_adequacy : list Consumption.t → list Production.t → NodeState.t)
    (proposal : Proposal.t) (new_state : NodeState.t) (w : world) prod_asked to rest :
  find_production (NodeState.productions_used new_state) (Proposal.production_id proposal)
    = Ok prod_asked →
  Proposal.path_node proposal = to :: rest →
  ∃ r w' offer later,
    make_offer optimize_adequacy proposal new_state w = (r, w') ∧
    trace w' = trace w ++ Ask to offer :: later ∧
    ProposalOffer.path_node offer = Proposal.path_node proposal ∧
    ProposalOffer.return_path_node offer =
      rev (removelast (Proposal.path_node proposal)) ++ [name (self w)] ∧
    (rest = [] → ProposalOffer.return_path_node offer = [name (self w)]).
Proof.
  intros Hfind Hpath.
  destruct (make_offer_run optimize_adequacy proposal new_state w _ _ _ Hfind Hpath)
    as (r & st & later & Hrun).
  eexists r, _, _, later. split; [exact Hrun|]. cbn [trace ProposalOffer.path_node
    ProposalOffer.return_path_node]. split; [done|]. split; [done|].
  rewrite slice_down_from_second_last. split; [done|].
  intros ->. by rewrite Hpath.
Qed.

Lemma make_offer_return_path_node_witness :
  let proposal := Proposal.mk 7 2 10 ["C"; "D"; "A"] in
  let new_state := NodeState.mk 8 [Production.mk 2 4 Import 7 None] [] in
  find_production (NodeState.productions_used new_state) 7
    = Ok (Production.mk 2 4 Import 7 None) ∧
  Proposal.path_node proposal = "C" :: ["D"; "A"] ∧
  ∃ r w' offer later,
    make_offer idle_solver proposal new_state (World node_B []) = (r, w') ∧
    trace w' = [] ++ Ask "C" offer :: later ∧
    ProposalOffer.path_node offer = ["C"; "D"; "A"] ∧
    ProposalOffer.return_path_node offer = rev (removelast ["C"; "D"; "A"]) ++ ["B"] ∧
    (["D"; "A"] = [] → ProposalOffer.return_path_node offer = ["B"]).
Proof.
  cbv zeta. split; [reflexivity|]. split; [reflexivity|].
  apply (make_offer_return_path_node idle_solver (Proposal.mk 7 2 10 ["C"; "D"; "A"])
           (NodeState.mk 8 [Production.mk 2 4 Import 7 None] []) (World node_B [])
           (Production.mk 2 4 Import 7 None) "C" ["D"; "A"]); reflexivity.
Defined.

Example make_offer_asks_with_return_path :
  (make_offer idle_solver (Proposal.mk 7 2 10 ["C"; "D"; "A"])
     (NodeState.mk 8 [Production.mk 2 4 Import 7 None] []) (World node_B [])).2
  = World node_B [Ask "C" (ProposalOffer.mk 7 2 4 ["C"; "D"; "A"] ["D"; "C"; "B"])].
Proof. reflexivity. Qed.

(** ** Generating exchanges *)

Lemma comprehension_uuid_run (min_exchange : Z) (production_id : uuid)
    (path_node : list string) (n : nat) : ∀ w,
  comprehension n
    (id ← call_uuid_generate; mret (Exchange.mk min_exchange id production_id path_node)) w =
  (Ok ((λ i, Exchange.mk min_exchange (uuid_generate (self w) i) production_id path_node)
       <$> seq (uuid_calls (self w)) n),
   World (set_uuid_calls (uuid_calls (self w) + n) (self w)) (trace w)).
Proof.
  induction n as [|n IH]; intros [b tr].
  - simpl. rewrite Nat.add_0_r. by destruct b.
  - cbn [comprehension]. rewrite bind_run, bind_run, call_uuid_generate_run.
    cbn [self trace mret ST_ret]. rewrite bind_run, IH.
    cbn [self trace set_uuid_calls uuid_calls uuid_generate mret ST_ret seq fmap list_fmap].
    replace (S (uuid_calls b) + n)%nat with (uuid_calls b + S n)%nat by lia.
    reflexivity.
Qed.

(** What [generate_exchanges] returns once the count is known: [length]
    exchanges of [min_exchange], then the remainder if it is not zero, with
    one call of [uuid_generate] each. *)
Lemma generate_exchanges_run production_id quantity path_node w length :
  py_int_truediv quantity (min_exchange (self w)) = Ok length →
  generate_exchanges production_id quantity path_node w =
  let b := self w in
  let n := Z.to_nat length in
  let remain := quantity - length * min_exchange b in
  (Ok (((λ i, Exchange.mk (min_exchange b) (uuid_generate b i) production_id path_node)
        <$> seq (uuid_calls b) n)
       ++ if decide (remain ≠ 0)
          then [Exchange.mk remain (uuid_generate b (uuid_calls b + n)) production_id path_node]
          else []),
   World (set_uuid_calls (uuid_calls b + n + if decide (remain ≠ 0) then 1 else 0) b)
         (trace w)).
Proof.
  intros Hdiv. unfold generate_exchanges.
  rewrite bind_run, this_run, bind_run, lift_run, Hdiv.
  rewrite bind_run, comprehension_uuid_run. cbv zeta.
  case_decide.
  - rewrite bind_run, call_uuid_generate_run.
    cbn [self trace mret ST_ret set_uuid_calls uuid_calls uuid_generate].
    do 2 f_equal. unfold set_uuid_calls. cbn. f_equal. lia.
  - cbn [mret ST_ret]. rewrite app_nil_r, Nat.add_0_r. done.
Qed.

Lemma sum_quantity_app exs exs' :
  sum_quantity (exs ++ exs') = sum_quantity exs + sum_quantity exs'.
Proof. unfold sum_quantity. induction exs as [|ex exs IH]; simpl; lia. Qed.

Lemma sum_quantity_full (q : Z) (f : nat → Exchange.t) (l : list nat) :
  (∀ i, Exchange.quantity (f i) = q) →
  sum_quantity (f <$> l) = Z.of_nat (length l) * q.
Proof.
  intros Hq. unfold sum_quantity. induction l as [|i l IH]; [done|].
  cbn [fmap list_fmap foldr length]. rewrite Hq.
  change (list_fmap nat Exchange.t f l) with (f <$> l). rewrite IH. lia.
Qed.

(** Whatever the rounding of the quotient, the exchanges generated for a
    positive quantity and a positive [min_exchange] all belong to the
    production served and add up to the quantity. *)
Lemma generate_exchanges_total production_id quantity path_node w exs w' :
  0 < quantity → 0 < min_exchange (self w) →
  generate_exchanges production_id quantity path_node w = (Ok exs, w') →
  sum_quantity exs = quantity ∧
  (∀ ex, ex ∈ exs → Exchange.production_id ex = production_id) ∧
  ledger_exchanges (self w') = ledger_exchanges (self w) ∧
  raw_productions (self w') = raw_productions (self w).
Proof.
  intros Hq Hmin Hrun.
  destruct (py_int_truediv quantity (min_exchange (self w))) as [len|err] eqn:Hdiv.
  - pose proof (py_int_truediv_nonneg _ _ _ Hq Hmin Hdiv) as Hlen.
    rewrite (generate_exchanges_run _ _ _ _ _ Hdiv) in Hrun. cbv zeta in Hrun.
    injection Hrun as <- <-. split; [|split; [|done]].
    + rewrite sum_quantity_app, (sum_quantity_full (min_exchange (self w))) by done.
      rewrite length_seq, Z2Nat.id by done.
      case_decide; unfold sum_quantity; simpl; lia.
    + intros ex [Hin | Hin]%elem_of_app.
      * apply list_elem_of_fmap in Hin as (i & -> & _). done.
      * case_decide; [|by apply elem_of_nil in Hin].
        apply list_elem_of_singleton in Hin as ->. done.
  - unfold generate_exchanges in Hrun.
    rewrite bind_run, this_run, bind_run, lift_run, Hdiv in Hrun. discriminate.
Qed.

(** Below [2^53] [generate_exchanges] splits the quantity as the
    specification says: [quantity / min_exchange] exchanges of
    [min_exchange], then one of [quantity mod min_exchange] if that is not
    zero; each takes the next identifier of [uuid_generate]. *)
Lemma generate_exchanges_below_2_53 production_id quantity path_node w :
  0 ≤ quantity < 2 ^ 53 → 0 < min_exchange (self w) →
  generate_exchanges production_id quantity path_node w =
  let b := self w in
  let n := Z.to_nat (quantity / min_exchange b) in
  let remain := quantity mod min_exchange b in
  (Ok (((λ i, Exchange.mk (min_exchange b) (uuid_generate b i) production_id path_node)
        <$> seq (uuid_calls b) n)
       ++ if decide (0 < remain)
          then [Exchange.mk remain (uuid_generate b (uuid_calls b + n)) production_id path_node]
          else []),
   World (set_uuid_calls (uuid_calls b + n + if decide (0 < remain) then 1 else 0) b)
         (trace w)).
Proof.
  intros Hq Hmin.
  rewrite (generate_exchanges_run _ _ _ _ _ (py_int_truediv_exact _ _ Hq Hmin)).
  cbv zeta.
  pose proof (Z.mod_pos_bound quantity (min_exchange (self w)) Hmin) as Hmod.
  assert (quantity - quantity / min_exchange (self w) * min_exchange (self w)
          = quantity mod min_exchange (self w)) as -> by (rewrite Z.mod_eq; lia).
  destruct (decide (quantity mod min_exchange (self w) ≠ 0)) as [Hne|Heq].
  - by rewrite !decide_True by lia.
  - by rewrite !decide_False by lia.
Qed.

(** The identifiers of the exchanges generated are pairwise distinct when
    [uuid_generate] never repeats itself. *)
Lemma generate_exchanges_fresh production_id quantity path_node w length exs w' :
  Inj (=) (=) (uuid_generate (self w)) →
  py_int_truediv quantity (min_exchange (self w)) = Ok length →
  generate_exchanges production_id quantity path_node w = (Ok exs, w') →
  NoDup (Exchange.id <$> exs).
Proof.
  intros Hinj Hdiv. rewrite (generate_exchanges_run _ _ _ _ _ Hdiv). cbv zeta.
  intros [= <- <-]. rewrite fmap_app, <- list_fmap_compose.
  assert (Exchange.id <$>
               (if decide (quantity - length * min_exchange (self w) ≠ 0)
                then [Exchange.mk (quantity - length * min_exchange (self w))
                        (uuid_generate (self w) (uuid_calls (self w) + Z.to_nat length))
                        production_id path_node]
                else []) =
               uuid_generate (self w) <$>
               (if decide (quantity - length * min_exchange (self w) ≠ 0)
                then [(uuid_calls (self w) + Z.to_nat length)%nat] else [])) as ->
    by (by case_decide).
  change (Exchange.id ∘ _) with (uuid_generate (self w)).
  rewrite <- fmap_app. apply NoDup_fmap; [done|].
  case_decide.
  - change [(uuid_calls (self w) + Z.to_nat length)%nat]
      with (seq (uuid_calls (self w) + Z.to_nat length) 1).
    rewrite <- seq_app. apply NoDup_seq.
  - rewrite app_nil_r. apply NoDup_seq.
Qed.

(** 7 units in chunks of 3: two full exchanges and a remainder of 1. *)
Example generate_exchanges_7_by_3 :
  generate_exchanges 7 7 ["A"] (World (Broker.mk "P" no_reply (λ n, n) 0 [] [] [] ∅ 3
                                         (NodeState.mk 0 [] [])) []) =
  (Ok [Exchange.mk 3 0 7 ["A"]; Exchange.mk 3 1 7 ["A"]; Exchange.mk 1 2 7 ["A"]],
   World (Broker.mk "P" no_reply (λ n, n) 3 [] [] [] ∅ 3 (NodeState.mk 0 [] [])) []).
Proof. vm_compute. reflexivity. Qed.

(** C5. For a quantity one unit short of a [min_exchange] of [2**60] the
    function returns two exchanges, one of [2**60] and one of -1, where
    [floor(quantity / min_exchange) = 0] calls for the single remainder
    exchange of [2**60 - 1]: the count is the truncated binary64 quotient,
    and that quotient is rounded up to 1.0. *)
Theorem generate_exchanges_rounded_quotient :
  generate_exchanges 7 (2 ^ 60 - 1) ["A"] (World node_huge []) =
  (Ok [Exchange.mk (2 ^ 60) 0 7 ["A"]; Exchange.mk (-1) 1 7 ["A"]],
   World (set_uuid_calls 2 node_huge) []).
Proof. vm_compute. reflexivity. Qed.

(** ** Serving an offer at the producing hop *)

Lemma find_production_elem prods id p :
  find_production prods id = Ok p → p ∈ prods ∧ Production.id p = id.
Proof.
  unfold find_production.
  destruct (filter (λ x, Production.id x = id) prods) as [|p' found] eqn:Hfilter; [done|].
  intros [= ->].
  assert (p ∈ filter (λ x, Production.id x = id) prods) as Hin
    by (rewrite Hfilter; apply list_elem_of_here).
  apply list_elem_of_filter in Hin as [Hid Hin]. done.
Qed.

Lemma generate_exchanges_frame production_id quantity path_node w r w' :
  generate_exchanges production_id quantity path_node w = (r, w') →
  ledger_exchanges (self w') = ledger_exchanges (self w) ∧
  raw_productions (self w') = raw_productions (self w).
Proof.
  destruct (py_int_truediv quantity (min_exchange (self w))) as [len|err] eqn:Hdiv.
  - rewrite (generate_exchanges_run _ _ _ _ _ Hdiv). cbv zeta. by intros [= <- <-].
  - unfold generate_exchanges.
    rewrite bind_run, this_run, bind_run, lift_run, Hdiv. by intros [= <- <-].
Qed.

(** With exactly nothing to serve the reply is empty and nothing changes. *)
Lemma receive_proposal_offer_nothing_to_serve proposal w free :
  ¬ 1 < Z.of_nat (length (ProposalOffer.path_node proposal)) →
  find_production (NodeState.productions_free (state (self w)))
                  (ProposalOffer.production_id proposal) = Ok free →
  Z.min (ProposalOffer.quantity proposal)
        (Production.quantity free
         - LedgerExchange.sum_production (ProposalOffer.production_id proposal)
                                         (ledger_exchanges (self w))) = 0 →
  min_exchange (self w) ≠ 0 →
  receive_proposal_offer proposal w = (Ok [], w).
Proof.
  intros Hhop Hfind Hzero Hmin. unfold receive_proposal_offer.
  rewrite decide_False by done.
  rewrite bind_run, this_run, bind_run, lift_run, Hfind. cbv zeta. rewrite Hzero.
  rewrite bind_run, (generate_exchanges_run _ _ _ _ _ (py_int_truediv_zero _ Hmin)).
  cbv zeta. rewrite decide_False by lia. rewrite decide_False by lia.
  cbn [Z.to_nat seq fmap list_fmap app mret ST_ret]. rewrite !Nat.add_0_r.
  destruct w as [[] tr]. reflexivity.
Qed.

(** With a positive quantity to serve, the exchanges of the reply add up to
    [min(offer.quantity, quantity_free - quantity_used)] and the ledger sum
    of the production grows by as much. *)
Lemma receive_proposal_offer_serves proposal w free exs w' :
  ¬ 1 < Z.of_nat (length (ProposalOffer.path_node proposal)) →
  find_production (NodeState.productions_free (state (self w)))
                  (ProposalOffer.production_id proposal) = Ok free →
  let quantity_exchange :=
    Z.min (ProposalOffer.quantity proposal)
          (Production.quantity free
           - LedgerExchange.sum_production (ProposalOffer.production_id proposal)
                                           (ledger_exchanges (self w))) in
  0 < quantity_exchange →
  0 < min_exchange (self w) →
  receive_proposal_offer proposal w = (Ok exs, w') →
  sum_quantity exs = quantity_exchange ∧
  LedgerExchange.sum_production (ProposalOffer.production_id proposal)
                                (ledger_exchanges (self w'))
  = LedgerExchange.sum_production (ProposalOffer.production_id proposal)
                                  (ledger_exchanges (self w))
    + quantity_exchange.
Proof.
  intros Hhop Hfind quantity_exchange Hpos Hmin. unfold receive_proposal_offer.
  rewrite decide_False by done.
  rewrite bind_run, this_run, bind_run, lift_run, Hfind. cbv zeta.
  fold quantity_exchange. rewrite bind_run.
  destruct (generate_exchanges _ quantity_exchange _ w) as [[ex|err] w1] eqn:Hgen; [|done].
  destruct (generate_exchanges_total _ _ _ _ _ _ Hpos Hmin Hgen)
    as (Hsum & Hids & Hledger & Hraw).
  rewrite bind_run, decide_True by done. unfold on_ledger. rewrite Hledger.
  destruct (LedgerExchange.add_all ex (ledger_exchanges (self w)))
    as [[[]|err] ledger1] eqn:Hadd; [|done].
  cbn [mret ST_ret]. intros [= <- <-]. split; [done|].
  cbn [self set_ledger_exchanges ledger_exchanges].
  rewrite (add_all_sum _ _ _ _ Hids Hadd), Hsum. by rewrite decide_True.
Qed.

(** With nothing left to serve ([min(5, 4 - 4) = 0]) the reply is empty. *)
Example receive_proposal_offer_zero_quantity :
  receive_proposal_offer (ProposalOffer.mk 7 1 5 ["P"] ["A"])
    (World (set_state (NodeState.mk 6 [] [Production.mk 1 4 Local 7 None]) node_P) []) =
  (Ok [], World (set_state (NodeState.mk 6 [] [Production.mk 1 4 Local 7 None]) node_P) []).
Proof. vm_compute. reflexivity. Qed.

(** C2. With a negative quantity to serve the handler does not return an
    empty list: P is offered 5 units of production 7, of which 1 is free and
    4 are committed, so [quantity_exchange = min(5, 1 - 4) = -3]; with
    [min_exchange = 2] the handler returns one exchange of quantity -1.  The
    ledger is left as it was. *)
Theorem receive_proposal_offer_negative_quantity :
  receive_proposal_offer (ProposalOffer.mk 7 1 5 ["P"] ["A"]) (World node_P []) =
  (Ok [Exchange.mk (-1) 0 7 ["A"]], World (set_uuid_calls 1 node_P) []).
Proof. vm_compute. reflexivity. Qed.

(** ** The ledger bound *)

Lemma make_offer_frame
    (optimize_adequacy : list Consumption.t → list Production.t → NodeState.t)
    proposal new_state w r w' :
  make_offer optimize_adequacy proposal new_state w = (r, w') →
  ledger_exchanges (self w') = ledger_exchanges (self w) ∧
  raw_productions (self w') = raw_productions (self w).
Proof.
  destruct (find_production (NodeState.productions_used new_state)
              (Proposal.production_id proposal)) as [prod_asked|err] eqn:Hfind.
  - destruct (Proposal.path_node proposal) as [|to rest] eqn:Hpath.
    + unfold make_offer.
      rewrite bind_run, this_run, bind_run, lift_run, Hfind, bind_run, lift_run, Hpath.
      by intros [= <- <-].
    + destruct (make_offer_run optimize_adequacy proposal new_state w _ _ _ Hfind Hpath)
        as (r0 & st & later & ->).
      by intros [= <- <-].
  - unfold make_offer. rewrite bind_run, this_run, bind_run, lift_run, Hfind.
    by intros [= <- <-].
Qed.

Lemma receive_proposal_frame
    (optimize_adequacy : list Consumption.t → list Production.t → NodeState.t)
    proposal w r w' :
  receive_proposal optimize_adequacy proposal w = (r, w') →
  ledger_exchanges (self w') = ledger_exchanges (self w) ∧
  raw_productions (self w') = raw_productions (self w).
Proof.
  unfold receive_proposal. rewrite bind_run, this_run. case_decide.
  - apply make_offer_frame.
  - rewrite send_proposal_run. by intros [= <- <-].
Qed.

Lemma receive_cancel_exchange_bound cancel w r w' :
  ledger_nonneg (ledger_exchanges (self w)) →
  ledger_bound (self w) →
  receive_cancel_exchange cancel w = (r, w') →
  ledger_bound (self w').
Proof.
  intros Hnonneg Hbound. unfold receive_cancel_exchange. case_decide.
  - rewrite bind_run, lift_run.
    destruct (py_first _) as [to|err]; [rewrite tell_run|]; by intros [= <- <-].
  - rewrite bind_run. unfold on_ledger at 1.
    destruct (LedgerExchange.delete_all (ConsumerCanceledExchange.exchanges cancel)
                (ledger_exchanges (self w))) as [r1 ledger1] eqn:Hdel.
    destruct (delete_all_sum _ _ _ _ Hnonneg Hdel) as [_ Hle].
    assert (ledger_bound (set_ledger_exchanges ledger1 (self w))) as Hbound1.
    { intros p Hp. specialize (Hbound p Hp). specialize (Hle (Production.id p)).
      cbn [set_ledger_exchanges ledger_exchanges]. lia. }
    destruct r1 as [[]|err]; [|by intros [= <- <-]].
    rewrite bind_run, lift_run.
    destruct (py_first (ConsumerCanceledExchange.exchanges cancel)) as [first|err];
      [|by intros [= <- <-]].
    rewrite bind_run, this_run, bind_run, lift_run. cbn [self trace].
    destruct (py_first _) as [cost|err]; [|by intros [= <- <-]].
    rewrite send_proposal_run. by intros [= <- <-].
Qed.

Lemma receive_proposal_offer_bound proposal w exs w' :
  0 < min_exchange (self w) →
  free_within_local (self w) →
  ledger_bound (self w) →
  receive_proposal_offer proposal w = (Ok exs, w') →
  ledger_bound (self w').
Proof.
  intros Hmin Hfree Hbound. unfold receive_proposal_offer. case_decide.
  - rewrite bind_run, lift_run.
    destruct (py_first _) as [to|err]; [rewrite call_ask_run|]; by intros [= <- <-].
  - rewrite bind_run, this_run, bind_run, lift_run.
    destruct (find_production _ _) as [free|err] eqn:Hfind; [|done].
    apply find_production_elem in Hfind as [Hin Hid].
    cbv zeta. rewrite bind_run.
    set (quantity_exchange := Z.min _ _).
    destruct (generate_exchanges _ quantity_exchange _ w) as [[ex|err] w1] eqn:Hgen; [|done].
    rewrite bind_run. case_decide as Hpos.
    + destruct (generate_exchanges_total _ _ _ _ _ _ Hpos Hmin Hgen)
        as (Hsum & Hids & Hledger & Hraw).
      unfold on_ledger. rewrite Hledger.
      destruct (LedgerExchange.add_all ex (ledger_exchanges (self w)))
        as [[[]|err] ledger1] eqn:Hadd; [|done].
      cbn [mret ST_ret]. intros [= <- <-]. intros p Hp.
      cbn [self set_ledger_exchanges ledger_exchanges raw_productions] in *.
      rewrite Hraw in Hp.
      rewrite (add_all_sum _ _ _ _ Hids Hadd), Hsum. case_decide as Hsame.
      * rewrite Hsame. specialize (Hfree p free Hp Hin (eq_trans Hid (eq_sym Hsame))).
        subst quantity_exchange. lia.
      * specialize (Hbound p Hp). lia.
    + destruct (generate_exchanges_frame _ _ _ _ _ _ Hgen) as [Hledger Hraw].
      cbn [mret ST_ret]. intros [= <- <-]. intros p Hp.
      rewrite Hledger. rewrite Hraw in Hp. by apply Hbound.
Qed.

(** One handler that completes keeps the ledger bound when it starts with a
    positive [min_exchange], on a ledger without negative quantities, and on
    a NodeState whose free productions stay within the local productions
    they stand for.  The handlers do not keep the second condition
    themselves: [generate_exchanges] can record a negative exchange, and the
    bound is lost when that exchange is cancelled, as shown below. *)
Theorem ledger_bound_after_every_handler
    (optimize_adequacy : list Consumption.t → list Production.t → NodeState.t)
    (message : Dispatcher.message) (w : world) (r : Dispatcher.reply) (w' : world) :
  0 < min_exchange (self w) →
  ledger_nonneg (ledger_exchanges (self w)) →
  free_within_local (self w) →
  ledger_bound (self w) →
  Dispatcher.on_receive optimize_adequacy message w = (Ok r, w') →
  ledger_bound (self w').
Proof.
  intros Hmin Hnonneg Hfree Hbound. destruct message as [| | |m|m|m]; cbn [Dispatcher.on_receive].
  - rewrite bind_run. unfold init. rewrite bind_run, this_run, send_proposal_run.
    by intros [= <- <-].
  - rewrite bind_run, this_run. by intros [= <- <-].
  - rewrite bind_run, this_run, bind_run. unfold compute_total.
    rewrite bind_run, this_run. by intros [= <- <-].
  - rewrite bind_run.
    destruct (receive_proposal_offer m w) as [[exs|err] w1] eqn:Hrun; [|done].
    intros [= <- <-]. by eapply receive_proposal_offer_bound.
  - rewrite bind_run.
    destruct (receive_proposal optimize_adequacy m w) as [[[]|err] w1] eqn:Hrun; [|done].
    intros [= <- <-]. destruct (receive_proposal_frame _ _ _ _ _ Hrun) as [Hledger Hraw].
    intros p Hp. rewrite Hledger. rewrite Hraw in Hp. by apply Hbound.
  - rewrite bind_run.
    destruct (receive_cancel_exchange m w) as [[[]|err] w1] eqn:Hrun; [|done].
    intros [= <- <-]. by eapply receive_cancel_exchange_bound.
Qed.

(** Q is offered 3 units and commits them as exchanges of 2 and 1. *)
Example node_Q_serves_offer :
  Dispatcher.on_receive idle_solver (Dispatcher.ProposalOffer (ProposalOffer.mk 7 1 3 ["Q"] ["A"]))
    (World node_Q []) =
  (Ok (Dispatcher.Exchanges [Exchange.mk 2 0 7 ["A"]; Exchange.mk 1 1 7 ["A"]]),
   World (set_ledger_exchanges
            {[ 7%nat := {[ 100%nat := Exchange.mk 2 100 7 ["A"];
                           0%nat := Exchange.mk 2 0 7 ["A"];
                           1%nat := Exchange.mk 1 1 7 ["A"] ]} ]}
            (set_uuid_calls 2 node_Q)) []).
Proof. vm_compute. reflexivity. Qed.

Lemma ledger_bound_after_every_handler_witness :
  0 < min_exchange node_Q ∧
  ledger_nonneg (ledger_exchanges node_Q) ∧
  free_within_local node_Q ∧
  ledger_bound node_Q ∧
  ledger_bound
    (self (Dispatcher.on_receive idle_solver
             (Dispatcher.ProposalOffer (ProposalOffer.mk 7 1 3 ["Q"] ["A"]))
             (World node_Q [])).2).
Proof.
  assert (0 < min_exchange node_Q) as Hmin by (simpl; lia).
  assert (ledger_nonneg (ledger_exchanges node_Q)) as Hnonneg.
  { intros pid id ex. unfold stored. cbn [ledger_exchanges node_Q].
    destruct (decide (pid = 7%nat)) as [->|Hne].
    - rewrite lookup_singleton_eq. simpl.
      destruct (decide (id = 100%nat)) as [->|Hne].
      + rewrite lookup_singleton_eq. intros [= <-]. simpl. lia.
      + by rewrite lookup_singleton_ne.
    - by rewrite lookup_singleton_ne. }
  assert (free_within_local node_Q) as Hfree.
  { intros p free ->%list_elem_of_singleton ->%list_elem_of_singleton _. simpl. lia. }
  assert (ledger_bound node_Q) as Hbound.
  { intros p ->%list_elem_of_singleton. by vm_compute. }
  repeat split; try assumption.
  eapply (ledger_bound_after_every_handler idle_solver
            (Dispatcher.ProposalOffer (ProposalOffer.mk 7 1 3 ["Q"] ["A"]))
            (World node_Q [])); try assumption.
  vm_compute. reflexivity.
Defined.

(** C4. The ledger bound does not hold after every handler.  P has
    [2**60 - 1] units of production 7, none committed, and exchanges in
    chunks of [2**60].  Offered all of them, P records two exchanges, one
    of [2**60] and one of -1 (the count of full exchanges is the binary64
    quotient, rounded up to 1), and the bound still holds: the ledger sum is
    [2**60 - 1].  The consumer then cancels the exchange of -1; the handler
    completes, and the ledger sum of production 7 is [2**60], above the
    production's quantity [2**60 - 1]. *)
Theorem ledger_bound_lost_after_cancellation :
  let offer := ProposalOffer.mk 7 1 (2 ^ 60 - 1) ["P"] ["A"] in
  let cancel := ConsumerCanceledExchange.mk [Exchange.mk (-1) 1 7 ["P"]] ["P"] in
  let ledger1 : LedgerExchange.t :=
    {[ 7%nat := {[ 0%nat := Exchange.mk (2 ^ 60) 0 7 ["A"];
                   1%nat := Exchange.mk (-1) 1 7 ["A"] ]} ]} in
  let ledger2 : LedgerExchange.t :=
    {[ 7%nat := {[ 0%nat := Exchange.mk (2 ^ 60) 0 7 ["A"] ]} ]} in
  let w1 := World (set_ledger_exchanges ledger1 (set_uuid_calls 2 node_huge_producer)) [] in
  let w2 :=
    World (set_ledger_exchanges ledger2 (set_uuid_calls 2 node_huge_producer))
          [Tell "A" (MProposal (Proposal.mk 7 2 (-1) ["P"]))] in
  ledger_bound node_huge_producer ∧
  Dispatcher.on_receive idle_solver (Dispatcher.ProposalOffer offer)
    (World node_huge_producer []) =
  (Ok (Dispatcher.Exchanges [Exchange.mk (2 ^ 60) 0 7 ["A"]; Exchange.mk (-1) 1 7 ["A"]]),
   w1) ∧
  ledger_bound (self w1) ∧
  Dispatcher.on_receive idle_solver (Dispatcher.ConsumerCanceledExchange cancel) w1 =
  (Ok Dispatcher.NoReply, w2) ∧
  raw_productions (self w2) = [Production.mk 1 (2 ^ 60 - 1) Local 7 None] ∧
  LedgerExchange.sum_production 7 (ledger_exchanges (self w2)) = 2 ^ 60 ∧
  ¬ ledger_bound (self w2).
Proof.
  cbv zeta. split; [|split; [|split; [|split; [|split; [|split]]]]].
  - intros p ->%list_elem_of_singleton. by vm_compute.
  - vm_compute. reflexivity.
  - intros p ->%list_elem_of_singleton. by vm_compute.
  - vm_compute. reflexivity.
  - reflexivity.
  - vm_compute. reflexivity.
  - intros Hbound.
    specialize (Hbound (Production.mk 1 (2 ^ 60 - 1) Local 7 None)
                       (list_elem_of_here _ _)).
    vm_compute in Hbound. by apply Hbound.
Qed.

(** * Further properties *)

(** ** The ledger: what is recorded, what is removed *)

Lemma add_completed_stored ex (ledger ledger' : LedgerExchange.t) :
  LedgerExchange.add ex ledger = (Ok (), ledger') →
  stored (Exchange.production_id ex) (Exchange.id ex) ledger = None ∧
  ∀ p i, stored p i ledger' = if decide ((p, i) = pair_of ex) then Some ex else stored p i ledger.
Proof.
  rewrite add_run.
  destruct (stored (Exchange.production_id ex) (Exchange.id ex) ledger) as [old|] eqn:Hold;
    [done|].
  intros [= <-]. split; [done|]. intros p i. rewrite stored_insert. unfold pair_of.
  destruct (decide (p = Exchange.production_id ex)) as [->|Hp].
  - destruct (decide (i = Exchange.id ex)) as [->|Hi].
    + by rewrite decide_True.
    + rewrite decide_False by congruence.
      unfold stored. by destruct (ledger !! Exchange.production_id ex).
  - by rewrite decide_False by congruence.
Qed.

Lemma add_all_completed exs : ∀ (ledger ledger' : LedgerExchange.t),
  LedgerExchange.add_all exs ledger = (Ok (), ledger') →
  NoDup (pair_of <$> exs) ∧
  (∀ ex, ex ∈ exs → stored (Exchange.production_id ex) (Exchange.id ex) ledger = None) ∧
  (∀ ex, ex ∈ exs → stored (Exchange.production_id ex) (Exchange.id ex) ledger' = Some ex) ∧
  (∀ p i, (p, i) ∉ pair_of <$> exs → stored p i ledger' = stored p i ledger).
Proof.
  unfold LedgerExchange.add_all.
  induction exs as [|ex exs IH]; intros ledger ledger' Hrun.
  - injection Hrun as <-. split; [constructor|].
    split; [intros ex Hin; by apply elem_of_nil in Hin|].
    split; [intros ex Hin; by apply elem_of_nil in Hin | done].
  - rewrite for_each_cons in Hrun.
    destruct (LedgerExchange.add ex ledger) as [[[]|err] ledger1] eqn:Hadd; [|done].
    destruct (add_completed_stored _ _ _ Hadd) as [Hfresh Hstored1].
    destruct (IH _ _ Hrun) as (Hnodup & Hnone & Hsome & Hother).
    assert (pair_of ex ∉ pair_of <$> exs) as Hnotin.
    { intros (ex' & Heq & Hin)%list_elem_of_fmap.
      specialize (Hnone ex' Hin). rewrite Hstored1 in Hnone.
      rewrite decide_True in Hnone; [done | by rewrite Heq]. }
    rewrite fmap_cons. split; [by constructor|]. split; [|split].
    + intros ex' [->|Hin]%elem_of_cons; [done|].
      specialize (Hnone ex' Hin). rewrite Hstored1 in Hnone. by case_decide.
    + intros ex' [->|Hin]%elem_of_cons; [|by apply Hsome].
      rewrite (Hother _ _ Hnotin), Hstored1. by rewrite decide_True.
    + intros p i Hnot. apply not_elem_of_cons in Hnot as [Hne Hnot].
      rewrite (Hother _ _ Hnot), Hstored1. by rewrite decide_False.
Qed.

(** X1. An [add_all] that completes has recorded every listed exchange under
    its (production_id, exchange_id) pair and has left every other pair as it
    was; it can only complete when the listed pairs are pairwise distinct and
    none of them was stored before. *)
Theorem add_all_records_every_exchange exs (ledger ledger' : LedgerExchange.t) :
  LedgerExchange.add_all exs ledger = (Ok (), ledger') →
  NoDup (pair_of <$> exs) ∧
  (∀ ex, ex ∈ exs → stored (Exchange.production_id ex) (Exchange.id ex) ledger = None) ∧
  (∀ ex, ex ∈ exs → stored (Exchange.production_id ex) (Exchange.id ex) ledger' = Some ex) ∧
  (∀ p i, (p, i) ∉ pair_of <$> exs → stored p i ledger' = stored p i ledger).
Proof. intros Hrun. by apply add_all_completed. Qed.

Lemma add_all_records_every_exchange_witness :
  let exs := [Exchange.mk 2 2 7 ["A"]; Exchange.mk 3 1 8 ["C"]] in
  let ledger' : LedgerExchange.t :=
    {[ 7%nat := {[ 1%nat := Exchange.mk 5 1 7 ["A"]; 2%nat := Exchange.mk 2 2 7 ["A"] ]};
       8%nat := {[ 1%nat := Exchange.mk 3 1 8 ["C"] ]} ]} in
  LedgerExchange.add_all exs ledger_7 = (Ok (), ledger') ∧
  NoDup (pair_of <$> exs) ∧
  (∀ ex, ex ∈ exs → stored (Exchange.production_id ex) (Exchange.id ex) ledger_7 = None) ∧
  (∀ ex, ex ∈ exs → stored (Exchange.production_id ex) (Exchange.id ex) ledger' = Some ex) ∧
  (∀ p i, (p, i) ∉ pair_of <$> exs → stored p i ledger' = stored p i ledger_7).
Proof.
  cbv zeta.
  assert (LedgerExchange.add_all [Exchange.mk 2 2 7 ["A"]; Exchange.mk 3 1 8 ["C"]] ledger_7 =
          (Ok (), {[ 7%nat := {[ 1%nat := Exchange.mk 5 1 7 ["A"];
                                 2%nat := Exchange.mk 2 2 7 ["A"] ]};
                     8%nat := {[ 1%nat := Exchange.mk 3 1 8 ["C"] ]} ]})) as Hrun
    by (vm_compute; reflexivity).
  split; [exact Hrun|].
  exact (add_all_records_every_exchange _ _ _ Hrun).
Defined.

(** X2. An [add_all] that completes raises the ledger sum of every production
    by the quantities of the listed exchanges of that production, and by
    nothing else. *)
Theorem add_all_sum_by_production exs : ∀ (ledger ledger' : LedgerExchange.t),
  LedgerExchange.add_all exs ledger = (Ok (), ledger') →
  ∀ p, LedgerExchange.sum_production p ledger' =
       LedgerExchange.sum_production p ledger
       + sum_quantity (filter (λ ex, Exchange.production_id ex = p) exs).
Proof.
  unfold LedgerExchange.add_all.
  induction exs as [|ex exs IH]; intros ledger ledger' Hrun p.
  - injection Hrun as <-. cbn. lia.
  - rewrite for_each_cons in Hrun.
    destruct (LedgerExchange.add ex ledger) as [[[]|err] ledger1] eqn:Hadd; [|done].
    rewrite (IH _ _ Hrun p), (add_sum _ _ _ Hadd p), filter_cons.
    destruct (decide (Exchange.production_id ex = p)) as [Heq|Hne].
    + rewrite decide_True by done.
      change (sum_quantity (ex :: ?l)) with (Exchange.quantity ex + sum_quantity l). lia.
    + rewrite decide_False by done. lia.
Qed.

Lemma add_all_sum_by_production_witness :
  let exs := [Exchange.mk 2 2 7 ["A"]; Exchange.mk 3 1 8 ["C"]; Exchange.mk 4 3 7 ["A"]] in
  ∃ ledger',
    LedgerExchange.add_all exs ledger_7 = (Ok (), ledger') ∧
    ∀ p, LedgerExchange.sum_production p ledger' =
         LedgerExchange.sum_production p ledger_7
         + sum_quantity (filter (λ ex, Exchange.production_id ex = p) exs).
Proof.
  cbv zeta. eexists. split; [vm_compute; reflexivity|].
  apply (add_all_sum_by_production
           [Exchange.mk 2 2 7 ["A"]; Exchange.mk 3 1 8 ["C"]; Exchange.mk 4 3 7 ["A"]] ledger_7).
  vm_compute. reflexivity.
Defined.

(** X3. [add_all] is not atomic: when it raises, the exception is the
    [ValueError] of the first listed exchange whose pair is already stored
    (in the ledger or by an earlier exchange of the list), the exchanges
    before it stay recorded and none after it is. *)
Theorem add_all_stops_at_first_duplicate exs : ∀ (ledger ledger' : LedgerExchange.t) e,
  LedgerExchange.add_all exs ledger = (Raise e, ledger') →
  e = ValueError ∧
  ∃ before dup after,
    exs = before ++ dup :: after ∧
    LedgerExchange.add_all before ledger = (Ok (), ledger') ∧
    is_Some (stored (Exchange.production_id dup) (Exchange.id dup) ledger').
Proof.
  unfold LedgerExchange.add_all.
  induction exs as [|ex exs IH]; intros ledger ledger' e Hrun; [done|].
  rewrite for_each_cons in Hrun.
  destruct (LedgerExchange.add ex ledger) as [[[]|err] ledger1] eqn:Hadd.
  - destruct (IH _ _ _ Hrun) as (-> & before & dup & after & -> & Hbefore & Hdup).
    split; [done|]. exists (ex :: before), dup, after. split; [done|].
    split; [|done]. by rewrite for_each_cons, Hadd.
  - injection Hrun as <- <-. rewrite add_run in Hadd.
    destruct (stored (Exchange.production_id ex) (Exchange.id ex) ledger) as [old|] eqn:Hold;
      [|done].
    injection Hadd as <- <-. split; [done|].
    exists [], ex, exs. split; [done|]. split; [done|]. by rewrite Hold.
Qed.

Lemma add_all_stops_at_first_duplicate_witness :
  let exs := [Exchange.mk 2 2 7 ["A"]; Exchange.mk 9 1 7 ["C"]; Exchange.mk 4 3 7 ["A"]] in
  ∃ ledger',
    LedgerExchange.add_all exs ledger_7 = (Raise ValueError, ledger') ∧
    stored 7 2 ledger' = Some (Exchange.mk 2 2 7 ["A"]) ∧
    ValueError = ValueError ∧
    ∃ before dup after,
      exs = before ++ dup :: after ∧
      LedgerExchange.add_all before ledger_7 = (Ok (), ledger') ∧
      is_Some (stored (Exchange.production_id dup) (Exchange.id dup) ledger').
Proof.
  cbv zeta. eexists. split; [vm_compute; reflexivity|]. split; [vm_compute; reflexivity|].
  apply (add_all_stops_at_first_duplicate
           [Exchange.mk 2 2 7 ["A"]; Exchange.mk 9 1 7 ["C"]; Exchange.mk 4 3 7 ["A"]] ledger_7).
  vm_compute. reflexivity.
Defined.

(** X4. A [delete_all] that completes leaves exactly the prior ledger minus
    the listed pairs: a listed pair is gone, any other pair holds what it
    held. *)
Theorem delete_all_removes_listed_pairs exs (ledger ledger' : LedgerExchange.t) :
  LedgerExchange.delete_all exs ledger = (Ok (), ledger') →
  ∀ p i, stored p i ledger' =
         if decide ((p, i) ∈ pair_of <$> exs) then None else stored p i ledger.
Proof. apply delete_all_completed. Qed.

Lemma delete_all_removes_listed_pairs_witness :
  let ledger : LedgerExchange.t :=
    {[ 7%nat := {[ 1%nat := Exchange.mk 5 1 7 ["A"]; 2%nat := Exchange.mk 2 2 7 ["A"] ]} ]} in
  let exs := [Exchange.mk 5 1 7 ["A"]; Exchange.mk 1 1 9 ["C"]] in
  ∃ ledger',
    LedgerExchange.delete_all exs ledger = (Ok (), ledger') ∧
    stored 7 2 ledger' = Some (Exchange.mk 2 2 7 ["A"]) ∧
    ∀ p i, stored p i ledger' =
           if decide ((p, i) ∈ pair_of <$> exs) then None else stored p i ledger.
Proof.
  cbv zeta. eexists. split; [vm_compute; reflexivity|]. split; [vm_compute; reflexivity|].
  apply (delete_all_removes_listed_pairs [Exchange.mk 5 1 7 ["A"]; Exchange.mk 1 1 9 ["C"]]).
  vm_compute. reflexivity.
Defined.

(** X5. [delete_all] is not atomic either: when it raises, the exception is
    the [KeyError] of the first listed exchange that is absent under a
    production the ledger knows; the exchanges before it stay deleted. *)
Theorem delete_all_stops_at_first_absent exs : ∀ (ledger ledger' : LedgerExchange.t) e,
  LedgerExchange.delete_all exs ledger = (Raise e, ledger') →
  e = KeyError ∧
  ∃ before absent after,
    exs = before ++ absent :: after ∧
    LedgerExchange.delete_all before ledger = (Ok (), ledger') ∧
    is_Some (ledger' !! Exchange.production_id absent) ∧
    stored (Exchange.production_id absent) (Exchange.id absent) ledger' = None.
Proof.
  unfold LedgerExchange.delete_all.
  induction exs as [|ex exs IH]; intros ledger ledger' e Hrun; [done|].
  rewrite for_each_cons in Hrun.
  destruct (LedgerExchange.delete ex ledger) as [[[]|err] ledger1] eqn:Hdel.
  - destruct (IH _ _ _ Hrun) as (-> & before & absent & after & -> & Hbefore & Habsent).
    split; [done|]. exists (ex :: before), absent, after. split; [done|].
    split; [|done]. by rewrite for_each_cons, Hdel.
  - injection Hrun as <- <-. rewrite delete_run in Hdel.
    destruct (ledger !! Exchange.production_id ex) as [exs'|] eqn:Hp; [|done].
    destruct (exs' !! Exchange.id ex) as [old|] eqn:Hi; [done|].
    injection Hdel as <- <-. split; [done|].
    exists [], ex, exs. split; [done|]. split; [done|].
    split; [by rewrite Hp|]. unfold stored. by rewrite Hp.
Qed.

Lemma delete_all_stops_at_first_absent_witness :
  let exs := [Exchange.mk 5 1 7 ["A"]; Exchange.mk 5 1 7 ["A"]] in
  ∃ ledger',
    LedgerExchange.delete_all exs ledger_7 = (Raise KeyError, ledger') ∧
    stored 7 1 ledger' = None ∧
    KeyError = KeyError ∧
    ∃ before absent after,
      exs = before ++ absent :: after ∧
      LedgerExchange.delete_all before ledger_7 = (Ok (), ledger') ∧
      is_Some (ledger' !! Exchange.production_id absent) ∧
      stored (Exchange.production_id absent) (Exchange.id absent) ledger' = None.
Proof.
  cbv zeta. eexists. split; [vm_compute; reflexivity|]. split; [vm_compute; reflexivity|].
  apply (delete_all_stops_at_first_absent
           [Exchange.mk 5 1 7 ["A"]; Exchange.mk 5 1 7 ["A"]] ledger_7).
  vm_compute. reflexivity.
Defined.

(** X6. Deleting an exchange right after it was added succeeds and undoes
    the addition: every pair holds what it held before and every production
    has the sum it had. *)
Theorem add_then_delete ex (ledger ledger1 : LedgerExchange.t) :
  LedgerExchange.add ex ledger = (Ok (), ledger1) →
  ∃ ledger2,
    LedgerExchange.delete ex ledger1 = (Ok (), ledger2) ∧
    (∀ p i, stored p i ledger2 = stored p i ledger) ∧
    (∀ p, LedgerExchange.sum_production p ledger2 = LedgerExchange.sum_production p ledger).
Proof.
  rewrite add_run.
  destruct (stored (Exchange.production_id ex) (Exchange.id ex) ledger) as [old|] eqn:Hold;
    [done|].
  intros [= <-]. rewrite delete_run, lookup_insert_eq, lookup_insert_eq.
  eexists. split; [done|].
  rewrite insert_insert_eq, delete_insert_eq.
  set (exs := default ∅ (ledger !! Exchange.production_id ex)).
  assert (exs !! Exchange.id ex = None) as Hnone.
  { unfold exs. unfold stored in Hold.
    destruct (ledger !! Exchange.production_id ex); [done | apply lookup_empty]. }
  rewrite (delete_id _ _ Hnone). split.
  - intros p i. unfold stored. destruct (decide (p = Exchange.production_id ex)) as [->|Hne].
    + rewrite lookup_insert_eq. unfold exs.
      destruct (ledger !! Exchange.production_id ex); [done | simpl; apply lookup_empty].
    + by rewrite lookup_insert_ne.
  - intros p. rewrite !sum_production_unfold.
    destruct (decide (p = Exchange.production_id ex)) as [->|Hne].
    + rewrite lookup_insert_eq. unfold exs.
      destruct (ledger !! Exchange.production_id ex); [done|].
      simpl. unfold quantity_sum. by rewrite map_fold_empty.
    + by rewrite lookup_insert_ne.
Qed.

Lemma add_then_delete_witness :
  let ex := Exchange.mk 3 2 8 ["C"] in
  let ledger1 := (LedgerExchange.add ex ledger_7).2 in
  LedgerExchange.add ex ledger_7 = (Ok (), ledger1) ∧
  ∃ ledger2,
    LedgerExchange.delete ex ledger1 = (Ok (), ledger2) ∧
    (∀ p i, stored p i ledger2 = stored p i ledger_7) ∧
    (∀ p, LedgerExchange.sum_production p ledger2 = LedgerExchange.sum_production p ledger_7).
Proof.
  cbv zeta. split; [vm_compute; reflexivity|].
  apply (add_then_delete (Exchange.mk 3 2 8 ["C"]) ledger_7). vm_compute. reflexivity.
Defined.

Lemma ledger_7_nonneg : ledger_nonneg ledger_7.
Proof.
  intros pid id ex. unfold stored, ledger_7.
  destruct (decide (pid = 7%nat)) as [->|Hne]; [|by rewrite lookup_singleton_ne].
  rewrite lookup_singleton_eq. simpl.
  destruct (decide (id = 1%nat)) as [->|Hne]; [|by rewrite lookup_singleton_ne].
  rewrite lookup_singleton_eq. intros [= <-]. simpl. lia.
Qed.

(** X7. On a ledger that holds no negative quantity, [delete_all], whether it
    completes or raises half way, raises no production's sum and leaves no
    negative quantity behind. *)
Theorem delete_all_never_raises_a_sum exs (ledger ledger' : LedgerExchange.t) r :
  ledger_nonneg ledger →
  LedgerExchange.delete_all exs ledger = (r, ledger') →
  ledger_nonneg ledger' ∧
  ∀ p, LedgerExchange.sum_production p ledger' ≤ LedgerExchange.sum_production p ledger.
Proof. apply delete_all_sum. Qed.

Lemma delete_all_never_raises_a_sum_witness :
  let run := LedgerExchange.delete_all [Exchange.mk 5 1 7 ["A"]; Exchange.mk 5 2 7 ["A"]]
                                       ledger_7 in
  ledger_nonneg ledger_7 ∧
  run.1 = Raise KeyError ∧
  ledger_nonneg run.2 ∧
  ∀ p, LedgerExchange.sum_production p run.2 ≤ LedgerExchange.sum_production p ledger_7.
Proof.
  cbv zeta. split; [apply ledger_7_nonneg|]. split; [vm_compute; reflexivity|].
  eapply (delete_all_never_raises_a_sum _ ledger_7); [apply ledger_7_nonneg|].
  apply surjective_pairing.
Defined.

(** ** Proposals and offers *)

(** X8. [send_proposal] never raises and leaves the broker as it is; it
    tells, border by border, one proposal per production, so
    [len(borders) * len(productions)] messages in all (the membership test
    on the border object filters none out).  [init] does so for the free
    productions of the current state, with an empty prior path. *)
Theorem send_proposal_tells_every_border productions path_node w :
  send_proposal productions path_node w =
    (Ok (), World (self w) (trace w ++ proposals_told (self w) productions path_node)) ∧
  length (proposals_told (self w) productions path_node)
    = (length (borders (self w)) * length productions)%nat ∧
  init w =
    (Ok (), World (self w)
       (trace w ++ proposals_told (self w) (NodeState.productions_free (state (self w))) [])).
Proof.
  split; [apply send_proposal_run|]. split.
  - unfold proposals_told. induction (borders (self w)) as [|bd bds IH]; [done|].
    rewrite bind_cons, length_app, length_fmap, IH. done.
  - unfold init. rewrite bind_run, this_run. apply send_proposal_run.
Qed.

Lemma find_production_none prods id :
  (∀ p, p ∈ prods → Production.id p ≠ id) →
  find_production prods id = Raise IndexError.
Proof.
  intros Hnone. unfold find_production.
  destruct (filter (λ x, Production.id x = id) prods) as [|p found] eqn:Hfilter; [done|].
  assert (p ∈ filter (λ x, Production.id x = id) prods) as Hin
    by (rewrite Hfilter; apply list_elem_of_here).
  apply list_elem_of_filter in Hin as [Hid Hin]. by destruct (Hnone p Hin).
Qed.

(** X9. At an intermediate hop (more than one node left on the path)
    [receive_proposal_offer] asks the next node with the offer whose
    path_node has lost its first hop and returns that node's reply as it
    is; the broker itself, its ledger and its identifier source included, is
    left as it was. *)
Theorem receive_proposal_offer_intermediate_hop proposal w hop next rest :
  ProposalOffer.path_node proposal = hop :: next :: rest →
  let forward :=
    ProposalOffer.mk (ProposalOffer.production_id proposal) (ProposalOffer.cost proposal)
      (ProposalOffer.quantity proposal) (next :: rest)
      (ProposalOffer.return_path_node proposal) in
  receive_proposal_offer proposal w =
  (Ok (ask (self w) next forward), World (self w) (trace w ++ [Ask next forward])).
Proof.
  intros Hpath forward. unfold receive_proposal_offer. rewrite Hpath.
  rewrite decide_True by (cbn [length]; lia).
  cbn [ProposalOffer.path_node drop]. rewrite bind_run, lift_run. cbn [py_first].
  by rewrite call_ask_run.
Qed.

Lemma receive_proposal_offer_intermediate_hop_witness :
  let offer := ProposalOffer.mk 7 3 4 ["B"; "C"; "P"] ["C"; "B"; "A"] in
  let forward := ProposalOffer.mk 7 3 4 ["C"; "P"] ["C"; "B"; "A"] in
  ProposalOffer.path_node offer = "B" :: "C" :: ["P"] ∧
  receive_proposal_offer offer (World node_B []) =
  (Ok (ask node_B "C" forward), World node_B ([] ++ [Ask "C" forward])).
Proof.
  cbv zeta. split; [reflexivity|].
  apply (receive_proposal_offer_intermediate_hop
           (ProposalOffer.mk 7 3 4 ["B"; "C"; "P"] ["C"; "B"; "A"]) (World node_B [])
           "B" "C" ["P"]).
  reflexivity.
Defined.

(** X10. At the producing hop an offer for a production that is not among
    the free productions of the current state raises [IndexError] before
    anything is generated, recorded or sent. *)
Theorem receive_proposal_offer_unknown_production proposal w :
  ¬ 1 < Z.of_nat (length (ProposalOffer.path_node proposal)) →
  (∀ p, p ∈ NodeState.productions_free (state (self w)) →
        Production.id p ≠ ProposalOffer.production_id proposal) →
  receive_proposal_offer proposal w = (Raise IndexError, w).
Proof.
  intros Hhop Hnone. unfold receive_proposal_offer. rewrite decide_False by done.
  by rewrite bind_run, this_run, bind_run, lift_run, (find_production_none _ _ Hnone).
Qed.

Lemma receive_proposal_offer_unknown_production_witness :
  let offer := ProposalOffer.mk 8 1 5 ["P"] ["A"] in
  ¬ 1 < Z.of_nat (length (ProposalOffer.path_node offer)) ∧
  (∀ p, p ∈ NodeState.productions_free (state node_P) →
        Production.id p ≠ ProposalOffer.production_id offer) ∧
  receive_proposal_offer offer (World node_P []) = (Raise IndexError, World node_P []).
Proof.
  cbv zeta.
  assert (¬ 1 < Z.of_nat (length ["P"])) as Hhop by (cbn; lia).
  assert (∀ p, p ∈ NodeState.productions_free (state node_P) → Production.id p ≠ 8%nat)
    as Hnone by (intros p ->%list_elem_of_singleton; done).
  split; [exact Hhop|]. split; [exact Hnone|].
  exact (receive_proposal_offer_unknown_production
           (ProposalOffer.mk 8 1 5 ["P"] ["A"]) (World node_P []) Hhop Hnone).
Defined.

(** ** Exchanges generated and committed *)

Lemma generate_exchanges_raises production_id quantity path_node w err :
  py_int_truediv quantity (min_exchange (self w)) = Raise err →
  generate_exchanges production_id quantity path_node w = (Raise err, w).
Proof.
  intros Hdiv. unfold generate_exchanges.
  by rewrite bind_run, this_run, bind_run, lift_run, Hdiv.
Qed.

Lemma generate_exchanges_shape production_id quantity path_node w exs w' :
  generate_exchanges production_id quantity path_node w = (Ok exs, w') →
  w' = World (set_uuid_calls (uuid_calls (self w) + length exs) (self w)) (trace w) ∧
  Exchange.id <$> exs = uuid_generate (self w) <$> seq (uuid_calls (self w)) (length exs) ∧
  ∀ ex, ex ∈ exs →
        Exchange.production_id ex = production_id ∧ Exchange.path_node ex = path_node.
Proof.
  destruct (py_int_truediv quantity (min_exchange (self w))) as [len|err] eqn:Hdiv.
  - rewrite (generate_exchanges_run _ _ _ _ _ Hdiv). cbv zeta. intros [= <- <-].
    rewrite length_app, length_fmap, length_seq. split; [|split].
    + case_decide; cbn [length]; do 2 f_equal; lia.
    + rewrite fmap_app, <- list_fmap_compose, seq_app, fmap_app. f_equal.
      case_decide; reflexivity.
    + intros ex [Hin|Hin]%elem_of_app.
      * apply list_elem_of_fmap in Hin as (i & -> & _). done.
      * case_decide; [|by apply elem_of_nil in Hin].
        apply list_elem_of_singleton in Hin as ->. done.
  - by rewrite (generate_exchanges_raises _ _ _ _ _ Hdiv).
Qed.

(** X11. A producing hop that serves a positive quantity commits what it
    replies: the exchanges returned add up to
    [min(offer.quantity, quantity_free - quantity_used)], each belongs to the
    production asked for, carries the offer's return_path_node and is stored
    in the ledger under its identifier; no other ledger entry changes, the
    ledger sum of the production grows by the quantity served and stays
    within the free quantity; the NodeState is not touched and no message is
    sent. *)
Theorem receive_proposal_offer_commits_reply proposal w free exs w' :
  ¬ 1 < Z.of_nat (length (ProposalOffer.path_node proposal)) →
  find_production (NodeState.productions_free (state (self w)))
                  (ProposalOffer.production_id proposal) = Ok free →
  let production_id := ProposalOffer.production_id proposal in
  let quantity_used :=
    LedgerExchange.sum_production production_id (ledger_exchanges (self w)) in
  let quantity_exchange :=
    Z.min (ProposalOffer.quantity proposal) (Production.quantity free - quantity_used) in
  0 < quantity_exchange →
  0 < min_exchange (self w) →
  receive_proposal_offer proposal w = (Ok exs, w') →
  sum_quantity exs = quantity_exchange ∧
  (∀ ex, ex ∈ exs →
     Exchange.production_id ex = production_id ∧
     Exchange.path_node ex = ProposalOffer.return_path_node proposal ∧
     stored production_id (Exchange.id ex) (ledger_exchanges (self w')) = Some ex) ∧
  (∀ p i, (p, i) ∉ pair_of <$> exs →
     stored p i (ledger_exchanges (self w')) = stored p i (ledger_exchanges (self w))) ∧
  LedgerExchange.sum_production production_id (ledger_exchanges (self w'))
    = quantity_used + quantity_exchange ∧
  LedgerExchange.sum_production production_id (ledger_exchanges (self w'))
    ≤ Production.quantity free ∧
  state (self w') = state (self w) ∧
  trace w' = trace w.
Proof.
  intros Hhop Hfind production_id quantity_used quantity_exchange Hpos Hmin.
  unfold receive_proposal_offer. rewrite decide_False by done.
  rewrite bind_run, this_run, bind_run, lift_run, Hfind. cbv zeta.
  fold production_id quantity_used quantity_exchange. rewrite bind_run.
  destruct (generate_exchanges _ quantity_exchange _ w) as [[ex|err] w1] eqn:Hgen; [|done].
  destruct (generate_exchanges_total _ _ _ _ _ _ Hpos Hmin Hgen) as (Hsum & Hids & _ & _).
  destruct (generate_exchanges_shape _ _ _ _ _ _ Hgen) as (-> & _ & Hshape).
  rewrite bind_run, decide_True by done. unfold on_ledger.
  cbn [self trace set_uuid_calls ledger_exchanges].
  destruct (LedgerExchange.add_all ex (ledger_exchanges (self w)))
    as [[[]|err] ledger1] eqn:Hadd; [|done].
  cbn [mret ST_ret]. intros [= <- <-].
  cbn [self trace set_ledger_exchanges ledger_exchanges state].
  destruct (add_all_completed _ _ _ Hadd) as (_ & _ & Hstored & Hother).
  pose proof (add_all_sum _ _ _ _ Hids Hadd production_id) as Hgrow.
  rewrite decide_True in Hgrow by done. fold quantity_used in Hgrow.
  split; [done|]. split; [|split; [done|]].
  - intros e He. destruct (Hshape e He) as [Hp Hpath]. split; [done|]. split; [done|].
    rewrite <- Hp. by apply Hstored.
  - split; [lia|]. split; [|done]. rewrite Hgrow, Hsum. unfold quantity_exchange. lia.
Qed.

Lemma receive_proposal_offer_commits_reply_witness :
  let offer := ProposalOffer.mk 7 1 5 ["Q"] ["A"] in
  let free := Production.mk 1 6 Local 7 None in
  let exs := [Exchange.mk 2 0 7 ["A"]; Exchange.mk 2 1 7 ["A"]] in
  let run := receive_proposal_offer offer (World node_Q []) in
  run.1 = Ok exs ∧
  sum_quantity exs = Z.min 5 (6 - LedgerExchange.sum_production 7 (ledger_exchanges node_Q)) ∧
  (∀ ex, ex ∈ exs →
     Exchange.production_id ex = 7%nat ∧
     Exchange.path_node ex = ["A"] ∧
     stored 7 (Exchange.id ex) (ledger_exchanges (self run.2)) = Some ex) ∧
  (∀ p i, (p, i) ∉ pair_of <$> exs →
     stored p i (ledger_exchanges (self run.2)) = stored p i (ledger_exchanges node_Q)) ∧
  LedgerExchange.sum_production 7 (ledger_exchanges (self run.2))
    = LedgerExchange.sum_production 7 (ledger_exchanges node_Q)
      + Z.min 5 (6 - LedgerExchange.sum_production 7 (ledger_exchanges node_Q)) ∧
  LedgerExchange.sum_production 7 (ledger_exchanges (self run.2)) ≤ 6 ∧
  state (self run.2) = state node_Q ∧
  trace run.2 = [].
Proof.
  cbv zeta. split; [vm_compute; reflexivity|].
  apply (receive_proposal_offer_commits_reply (ProposalOffer.mk 7 1 5 ["Q"] ["A"])
           (World node_Q []) (Production.mk 1 6 Local 7 None)).
  - cbn. lia.
  - reflexivity.
  - vm_compute. reflexivity.
  - vm_compute. reflexivity.
  - vm_compute. reflexivity.
Defined.

(** X12. A producing hop that has no surplus left
    ([min(offer.quantity, quantity_free - quantity_used) <= 0]) commits
    nothing, whatever it replies: the ledger and the NodeState are as before
    and no message is sent.  With exactly nothing to serve, and a
    [min_exchange] that is not zero, the reply is the empty list and the
    broker is unchanged. *)
Theorem receive_proposal_offer_without_surplus proposal w free r w' :
  ¬ 1 < Z.of_nat (length (ProposalOffer.path_node proposal)) →
  find_production (NodeState.productions_free (state (self w)))
                  (ProposalOffer.production_id proposal) = Ok free →
  let quantity_exchange :=
    Z.min (ProposalOffer.quantity proposal)
          (Production.quantity free
           - LedgerExchange.sum_production (ProposalOffer.production_id proposal)
                                           (ledger_exchanges (self w))) in
  quantity_exchange ≤ 0 →
  receive_proposal_offer proposal w = (r, w') →
  ledger_exchanges (self w') = ledger_exchanges (self w) ∧
  state (self w') = state (self w) ∧
  trace w' = trace w ∧
  (quantity_exchange = 0 → min_exchange (self w) ≠ 0 → r = Ok [] ∧ w' = w).
Proof.
  intros Hhop Hfind quantity_exchange Hle Hrun.
  assert (quantity_exchange = 0 → min_exchange (self w) ≠ 0 → r = Ok [] ∧ w' = w) as Hzero.
  { intros Hzero Hmin.
    rewrite (receive_proposal_offer_nothing_to_serve _ _ _ Hhop Hfind Hzero Hmin) in Hrun.
    by injection Hrun as <- <-. }
  revert Hrun. unfold receive_proposal_offer. rewrite decide_False by done.
  rewrite bind_run, this_run, bind_run, lift_run, Hfind. cbv zeta.
  fold quantity_exchange. rewrite bind_run.
  destruct (py_int_truediv quantity_exchange (min_exchange (self w))) as [len|err] eqn:Hdiv.
  - destruct (generate_exchanges _ quantity_exchange _ w) as [[ex|err] w1] eqn:Hgen.
    + destruct (generate_exchanges_shape _ _ _ _ _ _ Hgen) as (-> & _ & _).
      rewrite bind_run, decide_False by lia. cbn [mret ST_ret]. by intros [= <- <-].
    + rewrite (generate_exchanges_run _ _ _ _ _ Hdiv) in Hgen. discriminate.
  - rewrite (generate_exchanges_raises _ _ _ _ _ Hdiv). by intros [= <- <-].
Qed.

Lemma receive_proposal_offer_without_surplus_witness :
  let offer := ProposalOffer.mk 7 1 5 ["P"] ["A"] in
  let run := receive_proposal_offer offer (World node_P []) in
  Z.min 5 (1 - LedgerExchange.sum_production 7 (ledger_exchanges node_P)) = -3 ∧
  run.1 = Ok [Exchange.mk (-1) 0 7 ["A"]] ∧
  ledger_exchanges (self run.2) = ledger_exchanges node_P ∧
  state (self run.2) = state node_P ∧
  trace run.2 = [] ∧
  (Z.min 5 (1 - LedgerExchange.sum_production 7 (ledger_exchanges node_P)) = 0 →
   min_exchange node_P ≠ 0 → run.1 = Ok [] ∧ run.2 = World node_P []).
Proof.
  cbv zeta. split; [vm_compute; reflexivity|]. split; [vm_compute; reflexivity|].
  apply (receive_proposal_offer_without_surplus (ProposalOffer.mk 7 1 5 ["P"] ["A"])
           (World node_P []) (Production.mk 1 1 Local 7 None)).
  - cbn. lia.
  - reflexivity.
  - vm_compute. discriminate.
  - apply surjective_pairing.
Defined.

(** X13. For a quantity below [2**53] and a positive [min_exchange],
    [generate_exchanges] returns normally and the quantities of the
    exchanges are [quantity // min_exchange] times [min_exchange], followed
    by the remainder [quantity % min_exchange] when it is not zero; so no
    exchange is empty or exceeds [min_exchange]. *)
Theorem generate_exchanges_chunks production_id quantity path_node w :
  0 ≤ quantity < 2 ^ 53 →
  0 < min_exchange (self w) →
  ∃ exs w',
    generate_exchanges production_id quantity path_node w = (Ok exs, w') ∧
    Exchange.quantity <$> exs =
      replicate (Z.to_nat (quantity / min_exchange (self w))) (min_exchange (self w))
      ++ (if decide (quantity mod min_exchange (self w) = 0) then []
          else [quantity mod min_exchange (self w)]) ∧
    ∀ ex, ex ∈ exs → 0 < Exchange.quantity ex ≤ min_exchange (self w).
Proof.
  intros Hq Hmin. rewrite (generate_exchanges_below_2_53 _ _ _ _ Hq Hmin). cbv zeta.
  pose proof (Z.mod_pos_bound quantity (min_exchange (self w)) Hmin) as Hmod.
  eexists _, _. split; [reflexivity|]. split.
  - rewrite fmap_app, <- list_fmap_compose. f_equal.
    + rewrite (const_fmap _ _ (min_exchange (self w))) by done. by rewrite length_seq.
    + destruct (decide (quantity mod min_exchange (self w) = 0)) as [Hz|Hnz].
      * by rewrite decide_False by lia.
      * by rewrite decide_True by lia.
  - intros ex [Hin|Hin]%elem_of_app.
    + apply list_elem_of_fmap in Hin as (i & -> & _). cbn. lia.
    + case_decide; [|by apply elem_of_nil in Hin].
      apply list_elem_of_singleton in Hin as ->. cbn. lia.
Qed.

Lemma generate_exchanges_chunks_witness :
  let w := World node_Q [] in
  0 ≤ 7 < 2 ^ 53 ∧ 0 < min_exchange (self w) ∧
  ∃ exs w',
    generate_exchanges 7 7 ["A"] w = (Ok exs, w') ∧
    Exchange.quantity <$> exs =
      replicate (Z.to_nat (7 / min_exchange (self w))) (min_exchange (self w))
      ++ (if decide (7 mod min_exchange (self w) = 0) then []
          else [7 mod min_exchange (self w)]) ∧
    ∀ ex, ex ∈ exs → 0 < Exchange.quantity ex ≤ min_exchange (self w).
Proof.
  cbv zeta.
  assert (0 ≤ 7 < 2 ^ 53) as Hq by lia.
  assert (0 < min_exchange (self (World node_Q []))) as Hmin by (cbn; lia).
  split; [exact Hq|]. split; [exact Hmin|].
  exact (generate_exchanges_chunks 7 7 ["A"] (World node_Q []) Hq Hmin).
Defined.

(** X14. Whatever the rounding of the quotient, the exchanges
    [generate_exchanges] returns for a positive quantity and a positive
    [min_exchange] add up to the quantity; this holds beyond [2**53] too,
    where the last exchange may be negative. *)
Theorem generate_exchanges_adds_up production_id quantity path_node w exs w' :
  0 < quantity →
  0 < min_exchange (self w) →
  generate_exchanges production_id quantity path_node w = (Ok exs, w') →
  sum_quantity exs = quantity.
Proof. intros Hq Hmin Hrun. by destruct (generate_exchanges_total _ _ _ _ _ _ Hq Hmin Hrun). Qed.

Lemma generate_exchanges_adds_up_witness :
  let exs := [Exchange.mk (2 ^ 60) 0 7 ["A"]; Exchange.mk (-1) 1 7 ["A"]] in
  0 < 2 ^ 60 - 1 ∧ 0 < min_exchange node_huge ∧
  generate_exchanges 7 (2 ^ 60 - 1) ["A"] (World node_huge []) =
    (Ok exs, World (set_uuid_calls 2 node_huge) []) ∧
  sum_quantity exs = 2 ^ 60 - 1.
Proof.
  cbv zeta.
  assert (0 < 2 ^ 60 - 1) as Hq by lia.
  assert (0 < min_exchange (self (World node_huge []))) as Hmin by (cbn; lia).
  assert (generate_exchanges 7 (2 ^ 60 - 1) ["A"] (World node_huge []) =
          (Ok [Exchange.mk (2 ^ 60) 0 7 ["A"]; Exchange.mk (-1) 1 7 ["A"]],
           World (set_uuid_calls 2 node_huge) [])) as Hrun by (vm_compute; reflexivity).
  split; [exact Hq|]. split; [exact Hmin|]. split; [exact Hrun|].
  exact (generate_exchanges_adds_up _ _ _ _ _ _ Hq Hmin Hrun).
Defined.

(** X15. [generate_exchanges] draws one identifier per exchange it returns,
    in order, from [uuid_generate], and nothing else changes in the broker:
    the identifiers are the next [len(exchanges)] values of the source, hence
    pairwise distinct when the source never repeats itself; every exchange
    carries the production_id and the path_node passed in. *)
Theorem generate_exchanges_draws_identifiers production_id quantity path_node w exs w' :
  generate_exchanges production_id quantity path_node w = (Ok exs, w') →
  w' = World (set_uuid_calls (uuid_calls (self w) + length exs) (self w)) (trace w) ∧
  Exchange.id <$> exs = uuid_generate (self w) <$> seq (uuid_calls (self w)) (length exs) ∧
  (Inj (=) (=) (uuid_generate (self w)) → NoDup (Exchange.id <$> exs)) ∧
  ∀ ex, ex ∈ exs →
        Exchange.production_id ex = production_id ∧ Exchange.path_node ex = path_node.
Proof.
  intros Hrun. destruct (generate_exchanges_shape _ _ _ _ _ _ Hrun) as (Hw & Hids & Hshape).
  split; [done|]. split; [done|]. split; [|done].
  intros Hinj. rewrite Hids. apply NoDup_fmap; [done|]. apply NoDup_seq.
Qed.

Lemma generate_exchanges_draws_identifiers_witness :
  let b := set_uuid_calls 40 node_Q in
  let exs := [Exchange.mk 2 40 7 ["A"]; Exchange.mk 2 41 7 ["A"]; Exchange.mk 1 42 7 ["A"]] in
  generate_exchanges 7 5 ["A"] (World b []) = (Ok exs, World (set_uuid_calls 43 b) []) ∧
  World (set_uuid_calls 43 b) [] = World (set_uuid_calls (40 + length exs) b) [] ∧
  Exchange.id <$> exs = uuid_generate b <$> seq 40 (length exs) ∧
  (Inj (=) (=) (uuid_generate b) → NoDup (Exchange.id <$> exs)) ∧
  ∀ ex, ex ∈ exs → Exchange.production_id ex = 7%nat ∧ Exchange.path_node ex = ["A"].
Proof.
  cbv zeta.
  assert (generate_exchanges 7 5 ["A"] (World (set_uuid_calls 40 node_Q) []) =
          (Ok [Exchange.mk 2 40 7 ["A"]; Exchange.mk 2 41 7 ["A"]; Exchange.mk 1 42 7 ["A"]],
           World (set_uuid_calls 43 (set_uuid_calls 40 node_Q)) [])) as Hrun
    by (vm_compute; reflexivity).
  split; [exact Hrun|].
  exact (generate_exchanges_draws_identifiers _ _ _ _ _ _ Hrun).
Defined.

(** X16. With [min_exchange = 0] no exchange can be generated: the division
    raises [ZeroDivisionError] for every quantity, zero included, and a
    producing hop that knows the production raises it for every offer,
    before anything is drawn, recorded or sent. *)
Theorem generate_exchanges_zero_min_exchange production_id quantity path_node proposal w :
  min_exchange (self w) = 0 →
  generate_exchanges production_id quantity path_node w = (Raise ZeroDivisionError, w) ∧
  (¬ 1 < Z.of_nat (length (ProposalOffer.path_node proposal)) →
   (∃ free, find_production (NodeState.productions_free (state (self w)))
                            (ProposalOffer.production_id proposal) = Ok free) →
   receive_proposal_offer proposal w = (Raise ZeroDivisionError, w)).
Proof.
  intros Hmin.
  assert (∀ production_id quantity path_node,
            generate_exchanges production_id quantity path_node w
            = (Raise ZeroDivisionError, w)) as Hgen.
  { intros. apply generate_exchanges_raises. unfold py_int_truediv.
    by rewrite decide_True. }
  split; [apply Hgen|]. intros Hhop [free Hfind].
  unfold receive_proposal_offer. rewrite decide_False by done.
  rewrite bind_run, this_run, bind_run, lift_run, Hfind. cbv zeta.
  by rewrite bind_run, Hgen.
Qed.

Lemma generate_exchanges_zero_min_exchange_witness :
  let b := Broker.mk "P" no_reply (λ n, n) 0 [] [Production.mk 1 10 Local 7 None] [] ∅ 0
             (NodeState.mk 0 [] [Production.mk 1 10 Local 7 None]) in
  let offer := ProposalOffer.mk 7 1 5 ["P"] ["A"] in
  min_exchange b = 0 ∧
  generate_exchanges 7 0 ["A"] (World b []) = (Raise ZeroDivisionError, World b []) ∧
  (¬ 1 < Z.of_nat (length (ProposalOffer.path_node offer)) →
   (∃ free, find_production (NodeState.productions_free (state b)) 7 = Ok free) →
   receive_proposal_offer offer (World b []) = (Raise ZeroDivisionError, World b [])).
Proof.
  cbv zeta. split; [reflexivity|].
  apply (generate_exchanges_zero_min_exchange 7 0 ["A"] (ProposalOffer.mk 7 1 5 ["P"] ["A"])
           (World (Broker.mk "P" no_reply (λ n, n) 0 [] [Production.mk 1 10 Local 7 None] [] ∅ 0
                     (NodeState.mk 0 [] [Production.mk 1 10 Local 7 None])) [])).
  reflexivity.
Defined.

(** ** Cancelling exchanges *)

Lemma set_ledger_exchanges_same b : set_ledger_exchanges (ledger_exchanges b) b = b.
Proof. by destruct b. Qed.

Lemma find_production_cost prods id p :
  find_production prods id = Ok p →
  py_first (Production.cost <$> filter (λ x, Production.id x = id) prods)
  = Ok (Production.cost p).
Proof.
  unfold find_production.
  destruct (filter (λ x, Production.id x = id) prods) as [|p' found]; [done|].
  by intros [= ->].
Qed.

(** X17. At an intermediate hop (more than one node left on the path)
    [receive_cancel_exchange] tells the next node the cancellation with the
    same exchanges and a path_node that has lost its first hop; it never
    raises there, and the broker, its ledger included, is left as it was. *)
Theorem receive_cancel_exchange_intermediate_hop cancel w hop next rest :
  ConsumerCanceledExchange.path_node cancel = hop :: next :: rest →
  receive_cancel_exchange cancel w =
  (Ok (), World (self w)
     (trace w ++ [Tell next (MCancel (ConsumerCanceledExchange.mk
                                        (ConsumerCanceledExchange.exchanges cancel)
                                        (next :: rest)))])).
Proof.
  intros Hpath. unfold receive_cancel_exchange. rewrite Hpath.
  rewrite decide_True by (cbn [length]; lia).
  cbn [ConsumerCanceledExchange.path_node drop]. rewrite bind_run, lift_run. cbn [py_first].
  by rewrite tell_run.
Qed.

Lemma receive_cancel_exchange_intermediate_hop_witness :
  let cancel := ConsumerCanceledExchange.mk [Exchange.mk 2 1 7 ["B"; "P"]] ["B"; "P"] in
  ConsumerCanceledExchange.path_node cancel = "B" :: "P" :: [] ∧
  receive_cancel_exchange cancel (World node_B []) =
  (Ok (), World node_B
     ([] ++ [Tell "P" (MCancel (ConsumerCanceledExchange.mk [Exchange.mk 2 1 7 ["B"; "P"]]
                                  ["P"]))])).
Proof.
  cbv zeta. split; [reflexivity|].
  apply (receive_cancel_exchange_intermediate_hop
           (ConsumerCanceledExchange.mk [Exchange.mk 2 1 7 ["B"; "P"]] ["B"; "P"])
           (World node_B []) "B" "P" []).
  reflexivity.
Defined.

(** X18. At the producing hop a cancellation whose exchanges can all be
    deleted, and whose first exchange names a local production, releases
    them: the ledger is the prior one minus the listed pairs, and every
    border is told one proposal for that production, for the sum of the
    cancelled quantities, at the cost of the raw production plus the
    border's cost, with the node's own name as path_node.  The NodeState is
    not recomputed. *)
Theorem receive_cancel_exchange_releases cancel w first rest ledger' prod :
  ¬ 1 < Z.of_nat (length (ConsumerCanceledExchange.path_node cancel)) →
  ConsumerCanceledExchange.exchanges cancel = first :: rest →
  LedgerExchange.delete_all (ConsumerCanceledExchange.exchanges cancel)
                            (ledger_exchanges (self w)) = (Ok (), ledger') →
  find_production (raw_productions (self w)) (Exchange.production_id first) = Ok prod →
  receive_cancel_exchange cancel w =
  (Ok (), World (set_ledger_exchanges ledger' (self w))
     (trace w ++
      ((λ bd, Tell (Border.dest bd)
                (MProposal (Proposal.mk (Exchange.production_id first)
                              (Production.cost prod + Border.cost bd)
                              (sum_quantity (ConsumerCanceledExchange.exchanges cancel))
                              [name (self w)])))
       <$> borders (self w)))) ∧
  ∀ p i, stored p i ledger' =
         if decide ((p, i) ∈ pair_of <$> ConsumerCanceledExchange.exchanges cancel)
         then None else stored p i (ledger_exchanges (self w)).
Proof.
  intros Hhop Hexs Hdel Hfind. split; [|by apply delete_all_completed].
  unfold receive_cancel_exchange. rewrite decide_False by done.
  rewrite bind_run. unfold on_ledger at 1. rewrite Hdel.
  rewrite bind_run, lift_run, Hexs. cbn [py_first].
  rewrite bind_run, this_run, bind_run, lift_run.
  cbn [self trace set_ledger_exchanges raw_productions].
  rewrite (find_production_cost _ _ _ Hfind).
  by rewrite send_proposal_run, proposals_told_single.
Qed.

Lemma receive_cancel_exchange_releases_witness :
  let cancel := ConsumerCanceledExchange.mk [Exchange.mk 2 100 7 ["A"]] ["Q"] in
  let ledger' : LedgerExchange.t := {[ 7%nat := ∅ ]} in
  receive_cancel_exchange cancel (World node_Q []) =
  (Ok (), World (set_ledger_exchanges ledger' node_Q)
     ([] ++ [Tell "A" (MProposal (Proposal.mk 7 2 2 ["Q"]))])) ∧
  ∀ p i, stored p i ledger' =
         if decide ((p, i) ∈ pair_of <$> [Exchange.mk 2 100 7 ["A"]])
         then None else stored p i (ledger_exchanges node_Q).
Proof.
  cbv zeta.
  apply (receive_cancel_exchange_releases
           (ConsumerCanceledExchange.mk [Exchange.mk 2 100 7 ["A"]] ["Q"])
           (World node_Q []) (Exchange.mk 2 100 7 ["A"]) [] {[ 7%nat := ∅ ]}
           (Production.mk 1 10 Local 7 None)).
  - cbn. lia.
  - reflexivity.
  - vm_compute. reflexivity.
  - reflexivity.
Defined.

(** X19. At the producing hop a cancellation without exchanges raises
    [IndexError] and changes nothing: nothing is deleted and nothing is
    told. *)
Theorem receive_cancel_exchange_without_exchanges cancel w :
  ¬ 1 < Z.of_nat (length (ConsumerCanceledExchange.path_node cancel)) →
  ConsumerCanceledExchange.exchanges cancel = [] →
  receive_cancel_exchange cancel w = (Raise IndexError, w).
Proof.
  intros Hhop Hexs. unfold receive_cancel_exchange. rewrite decide_False by done.
  rewrite Hexs, bind_run. unfold on_ledger at 1.
  cbn [LedgerExchange.delete_all for_each mret ST_ret].
  rewrite set_ledger_exchanges_same, bind_run, lift_run. cbn [py_first].
  by destruct w.
Qed.

Lemma receive_cancel_exchange_without_exchanges_witness :
  let cancel := ConsumerCanceledExchange.mk [] ["Q"] in
  ¬ 1 < Z.of_nat (length (ConsumerCanceledExchange.path_node cancel)) ∧
  receive_cancel_exchange cancel (World node_Q []) = (Raise IndexError, World node_Q []).
Proof.
  cbv zeta.
  assert (¬ 1 < Z.of_nat (length ["Q"])) as Hhop by (cbn; lia).
  split; [exact Hhop|].
  exact (receive_cancel_exchange_without_exchanges (ConsumerCanceledExchange.mk [] ["Q"])
           (World node_Q []) Hhop eq_refl).
Defined.

(** X20. The producing hop deletes before it looks the production up: when
    the first cancelled exchange names a production that is not among the raw
    productions of the node, [receive_cancel_exchange] raises [IndexError]
    after the listed exchanges have left the ledger, and no proposal is
    told. *)
Theorem receive_cancel_exchange_foreign_production cancel w first rest ledger' :
  ¬ 1 < Z.of_nat (length (ConsumerCanceledExchange.path_node cancel)) →
  ConsumerCanceledExchange.exchanges cancel = first :: rest →
  LedgerExchange.delete_all (ConsumerCanceledExchange.exchanges cancel)
                            (ledger_exchanges (self w)) = (Ok (), ledger') →
  (∀ p, p ∈ raw_productions (self w) → Production.id p ≠ Exchange.production_id first) →
  receive_cancel_exchange cancel w =
  (Raise IndexError, World (set_ledger_exchanges ledger' (self w)) (trace w)).
Proof.
  intros Hhop Hexs Hdel Hnone.
  unfold receive_cancel_exchange. rewrite decide_False by done.
  rewrite bind_run. unfold on_ledger at 1. rewrite Hdel.
  rewrite bind_run, lift_run, Hexs. cbn [py_first].
  rewrite bind_run, this_run, bind_run, lift_run.
  cbn [self trace set_ledger_exchanges raw_productions].
  pose proof (find_production_none _ _ Hnone) as Hfind. unfold find_production in Hfind.
  destruct (filter _ (raw_productions (self w))) as [|p found]; [done | discriminate].
Qed.

Lemma receive_cancel_exchange_foreign_production_witness :
  let b := set_ledger_exchanges {[ 8%nat := {[ 1%nat := Exchange.mk 3 1 8 ["A"] ]} ]} node_Q in
  let cancel := ConsumerCanceledExchange.mk [Exchange.mk 3 1 8 ["A"]] ["Q"] in
  stored 8 1 (ledger_exchanges b) = Some (Exchange.mk 3 1 8 ["A"]) ∧
  receive_cancel_exchange cancel (World b []) =
  (Raise IndexError, World (set_ledger_exchanges {[ 8%nat := ∅ ]} b) []).
Proof.
  cbv zeta. split; [reflexivity|].
  apply (receive_cancel_exchange_foreign_production
           (ConsumerCanceledExchange.mk [Exchange.mk 3 1 8 ["A"]] ["Q"])
           (World (set_ledger_exchanges {[ 8%nat := {[ 1%nat := Exchange.mk 3 1 8 ["A"] ]} ]}
                     node_Q) [])
           (Exchange.mk 3 1 8 ["A"]) [] {[ 8%nat := ∅ ]}).
  - cbn. lia.
  - reflexivity.
  - vm_compute. reflexivity.
  - intros p ->%list_elem_of_singleton. discriminate.
Defined.

Lemma regroup_keys productions ex :
  (regroup productions ex).*1 =
  if decide (Exchange.production_id ex ∈ productions.*1) then productions.*1
  else productions.*1 ++ [Exchange.production_id ex].
Proof.
  unfold regroup.
  assert (∀ entries : list (uuid * (list Exchange.t * list string)),
            ((λ entry, if decide (entry.1 = Exchange.production_id ex)
                       then (entry.1, (entry.2.1 ++ [ex], Exchange.path_node ex))
                       else entry) <$> entries).*1 = entries.*1) as Hkeys.
  { induction entries as [|entry entries IH]; [done|].
    rewrite !fmap_cons, IH. f_equal. by case_decide. }
  rewrite Hkeys. case_decide; [done|]. by rewrite fmap_app.
Qed.

Lemma filter_none {A} (P : A → Prop) `{∀ x, Decision (P x)} (l : list A) :
  (∀ x, x ∈ l → ¬ P x) → filter P l = [].
Proof.
  intros Hnone. destruct (filter P l) as [|x found] eqn:Hfilter; [done|].
  assert (x ∈ filter P l) as Hin by (rewrite Hfilter; apply list_elem_of_here).
  apply list_elem_of_filter in Hin as [HP Hin]. by destruct (Hnone x Hin).
Qed.

(** The dictionary [productions] of [send_cancel_exchange], after the
    exchanges [exchanges] went through its first loop: one key per
    production met, holding all the exchanges of that production in their
    order. *)
Lemma foldl_regroup_grouped exchanges :
  NoDup ((foldl regroup [] exchanges).*1) ∧
  (∀ pid, pid ∈ ((foldl regroup [] exchanges).*1) ↔
          pid ∈ Exchange.production_id <$> exchanges) ∧
  (∀ entry, entry ∈ foldl regroup [] exchanges →
            entry.2.1 = filter (λ ex, Exchange.production_id ex = entry.1) exchanges).
Proof.
  induction exchanges as [|ex exchanges (Hnodup & Hkeys & Hgroup)] using rev_ind.
  - split; [constructor|]. split; [done|]. intros entry Hin. by apply elem_of_nil in Hin.
  - rewrite foldl_snoc. set (groups := foldl regroup [] exchanges) in *.
    split; [|split].
    + rewrite regroup_keys. case_decide; [done|]. apply NoDup_app. split; [done|].
      split; [|apply NoDup_singleton]. by intros pid Hin ->%list_elem_of_singleton.
    + intros pid. rewrite regroup_keys, fmap_app, elem_of_app, <- Hkeys.
      change (Exchange.production_id <$> [ex]) with [Exchange.production_id ex].
      case_decide as Hknown; [|by rewrite elem_of_app].
      split; [by left|]. by intros [Hin | ->%list_elem_of_singleton].
    + intros entry' Hin. unfold regroup in Hin.
      apply list_elem_of_fmap in Hin as (entry & -> & Hin).
      rewrite filter_app.
      assert (entry ∈ groups ∨
              (Exchange.production_id ex ∉ groups.*1) ∧
              entry = (Exchange.production_id ex, ([], []))) as [Hold | [Hnew ->]].
      { case_decide; [by left|].
        apply elem_of_app in Hin as [Hin | ->%list_elem_of_singleton]; [by left | by right]. }
      * clear Hin. destruct (decide (entry.1 = Exchange.production_id ex)) as [Hkey|Hkey];
          cbn [fst snd].
        -- rewrite (Hgroup _ Hold), Hkey. by rewrite filter_cons_True.
        -- rewrite (Hgroup _ Hold), filter_cons_False, app_nil_r by done. done.
      * clear Hin. cbn [fst snd]. rewrite decide_True by done. cbn [fst snd].
        rewrite filter_cons_True by done. rewrite filter_none; [done|].
        intros ex' Hin' Heq. apply Hnew, Hkeys, list_elem_of_fmap. by exists ex'.
Qed.

Lemma tell_cancellations_exact (entries : list (uuid * (list Exchange.t * list string))) :
  ∀ w,
  Forall (λ entry, entry.2.2 ≠ []) entries →
  for_each entries (λ entry,
    to ← lift (py_first entry.2.2);
    tell to (MCancel (ConsumerCanceledExchange.mk entry.2.1 entry.2.2))) w
  = (Ok (), World (self w)
       (trace w ++
        omap (λ cancel, match ConsumerCanceledExchange.path_node cancel with
                        | to :: _ => Some (Tell to (MCancel cancel))
                        | [] => None
                        end)
             ((λ entry, ConsumerCanceledExchange.mk entry.2.1 entry.2.2) <$> entries))).
Proof.
  induction entries as [|entry entries IH]; intros [b tr] Hall.
  - cbn. by rewrite app_nil_r.
  - apply Forall_cons in Hall as [Hpath Hall].
    rewrite for_each_cons, bind_run, lift_run.
    destruct (entry.2.2) as [|to path] eqn:Hentry; [done|].
    cbn [py_first]. rewrite tell_run, (IH _ Hall). cbn [self trace].
    rewrite fmap_cons. cbn [omap list_omap ConsumerCanceledExchange.path_node].
    rewrite Hentry. by rewrite <- app_assoc.
Qed.

(** X21. [send_cancel_exchange] cancels every exchange exactly once: its
    dictionary ends with one key per production met among the exchanges,
    and under each key all the exchanges of that production, in their order.
    When every exchange has a nonempty path_node the function does not
    raise, leaves the broker as it is, and tells one cancellation per
    production, each to the first node of its path. *)
Theorem send_cancel_exchange_one_message_per_production exchanges w :
  let groups := foldl regroup [] exchanges in
  NoDup (groups.*1) ∧
  (∀ pid, pid ∈ groups.*1 ↔ pid ∈ Exchange.production_id <$> exchanges) ∧
  (∀ entry, entry ∈ groups →
            entry.2.1 = filter (λ ex, Exchange.production_id ex = entry.1) exchanges) ∧
  (Forall (λ ex, Exchange.path_node ex ≠ []) exchanges →
   ∃ told,
     send_cancel_exchange exchanges w = (Ok (), World (self w) (trace w ++ told)) ∧
     told = omap (λ cancel, match ConsumerCanceledExchange.path_node cancel with
                            | to :: _ => Some (Tell to (MCancel cancel))
                            | [] => None
                            end) (cancellations exchanges) ∧
     length told = length groups).
Proof.
  cbv zeta. destruct (foldl_regroup_grouped exchanges) as (Hnodup & Hkeys & Hgroup).
  split; [done|]. split; [done|]. split; [done|].
  intros Hpaths.
  assert (Forall (λ entry : uuid * (list Exchange.t * list string), entry.2.2 ≠ [])
                 (foldl regroup [] exchanges)) as Hall.
  { pose proof (foldl_regroup_ok exchanges [] (Forall_nil_2 _)) as Hok.
    rewrite Forall_forall in Hok. apply Forall_forall. intros entry Hin.
    destruct (Hok _ Hin) as [_ (ex & Hlast & <-)].
    rewrite Forall_forall in Hpaths. apply Hpaths.
    apply last_Some_elem_of in Hlast. rewrite (Hgroup _ Hin) in Hlast.
    by apply list_elem_of_filter in Hlast as [_ ?]. }
  eexists. unfold send_cancel_exchange.
  split; [apply (tell_cancellations_exact _ w Hall)|]. split; [done|].
  clear Hnodup Hkeys Hgroup. unfold cancellations.
  induction Hall as [|entry entries Hpath _ IH]; [done|].
  rewrite fmap_cons. cbn [omap list_omap ConsumerCanceledExchange.path_node].
  destruct (entry.2.2); [done|]. cbn [length]. by f_equal.
Qed.

(** ** Making an offer *)


Lemma find_production_raises prods id err :
  find_production prods id = Raise err → err = IndexError.
Proof.
  unfold find_production. destruct (filter _ prods); [by intros [= <-] | done].
Qed.



(** X23. [make_offer] has nothing to ask when the new state does not use a
    production with the proposal's identifier, or when the proposal has an
    empty path_node: it raises [IndexError] before any request, and the
    broker keeps its state.  So does [receive_proposal] when the optimizer
    finds such a state cheaper. *)
Theorem make_offer_nothing_to_ask
    (optimize_adequacy : list Consumption.t → list Production.t → NodeState.t)
    (proposal : Proposal.t) (new_state : NodeState.t) (w : world) :
  (∀ p, p ∈ NodeState.productions_used new_state →
        Production.id p ≠ Proposal.production_id proposal) ∨
  Proposal.path_node proposal = [] →
  make_offer optimize_adequacy proposal new_state w = (Raise IndexError, w) ∧
  (new_state =
     optimize_adequacy (consumptions (self w))
       ([Production.mk (Proposal.cost proposal) (Proposal.quantity proposal) Import
           (Proposal.production_id proposal) None]
        ++ NodeState.productions_used (state (self w))
        ++ NodeState.productions_free (state (self w))) →
   NodeState.cost new_state < NodeState.cost (state (self w)) →
   receive_proposal optimize_adequacy proposal w = (Raise IndexError, w)).
Proof.
  intros Hedge.
  assert (make_offer optimize_adequacy proposal new_state w = (Raise IndexError, w)) as Hrun.
  { unfold make_offer. rewrite bind_run, this_run, bind_run, lift_run.
    destruct (find_production (NodeState.productions_used new_state)
                (Proposal.production_id proposal)) as [prod_asked|err] eqn:Hfind.
    - destruct Hedge as [Hnone | Hpath].
      + by rewrite (find_production_none _ _ Hnone) in Hfind.
      + by rewrite bind_run, lift_run, Hpath.
    - by rewrite (find_production_raises _ _ _ Hfind). }
  split; [exact Hrun|]. intros -> Hcost.
  unfold receive_proposal. rewrite bind_run, this_run. cbv zeta.
  by rewrite decide_True.
Qed.

Lemma make_offer_nothing_to_ask_witness :
  let proposal := Proposal.mk 7 2 10 ["C"] in
  let new_state := NodeState.mk (-1) [Production.mk 1 4 Local 3 None] [] in
  make_offer idle_solver proposal new_state (World node_B []) = (Raise IndexError, World node_B []) ∧
  (new_state =
     idle_solver (consumptions node_B)
       ([Production.mk 2 10 Import 7 None]
        ++ NodeState.productions_used (state node_B)
        ++ NodeState.productions_free (state node_B)) →
   NodeState.cost new_state < NodeState.cost (state node_B) →
   receive_proposal idle_solver proposal (World node_B []) = (Raise IndexError, World node_B [])).
Proof.
  cbv zeta.
  apply (make_offer_nothing_to_ask idle_solver (Proposal.mk 7 2 10 ["C"])
           (NodeState.mk (-1) [Production.mk 1 4 Local 3 None] []) (World node_B [])).
  left. intros p ->%list_elem_of_singleton. discriminate.
Defined.

(** ** Looking a production up *)

(** X24. [find_production] returns the first production of the list that
    has the identifier asked for, and raises [IndexError] exactly when the
    list holds none. *)
Theorem find_production_first_match prods id :
  match find_production prods id with
  | Ok p =>
      ∃ before after,
        prods = before ++ p :: after ∧
        Production.id p = id ∧
        ∀ q, q ∈ before → Production.id q ≠ id
  | Raise err =>
      err = IndexError ∧ ∀ q, q ∈ prods → Production.id q ≠ id
  end.
Proof.
  unfold find_production. induction prods as [|p prods IH].
  - split; [done|]. intros q Hin. by apply elem_of_nil in Hin.
  - destruct (decide (Production.id p = id)) as [Hid|Hid].
    + rewrite filter_cons_True by done. cbn [py_first].
      exists [], prods. split; [done|]. split; [done|].
      intros q Hin. by apply elem_of_nil in Hin.
    + rewrite filter_cons_False by done.
      destruct (py_first (filter (λ x, Production.id x = id) prods)) as [found|err].
      * destruct IH as (before & after & -> & Hfound & Hbefore).
        exists (p :: before), after. split; [done|]. split; [done|].
        intros q [->|Hin]%elem_of_cons; [done | by apply Hbefore].
      * destruct IH as [-> Hnone]. split; [done|].
        intros q [->|Hin]%elem_of_cons; [done | by apply Hnone].
Qed.

(** ** Constructing a broker *)

Lemma insert_reverse_perm {A} (key : A → Z) (x : A) (l : list A) :
  insert_reverse key x l ≡ₚ x :: l.
Proof.
  induction l as [|y l IH]; [done|]. cbn [insert_reverse]. case_decide; [|done].
  rewrite IH. apply Permutation_swap.
Qed.

Lemma insert_reverse_sorted {A} (key : A → Z) (x : A) (l : list A) :
  StronglySorted (λ a b, key b ≤ key a) l →
  StronglySorted (λ a b, key b ≤ key a) (insert_reverse key x l).
Proof.
  induction l as [|y l IH]; intros Hsorted.
  - repeat constructor.
  - apply StronglySorted_inv in Hsorted as [Hsorted Hall]. cbn [insert_reverse].
    case_decide as Hlt.
    + constructor; [by apply IH|]. rewrite insert_reverse_perm.
      constructor; [lia | done].
    + constructor; [by constructor|]. constructor; [lia|].
      eapply Forall_impl; [exact Hall|]. intros z Hz. simpl in Hz. lia.
Qed.

Lemma insert_reverse_stable {A} (key : A → Z) (k : Z) (x : A) (l : list A) :
  filter (λ a, key a = k) (insert_reverse key x l) = filter (λ a, key a = k) (x :: l).
Proof.
  induction l as [|y l IH]; [done|]. cbn [insert_reverse]. case_decide as Hlt; [|done].
  destruct (decide (key y = k)) as [Hy|Hy].
  - rewrite (filter_cons_True _ y) by done. rewrite IH.
    rewrite (filter_cons_False _ x) by (simpl; lia).
    rewrite (filter_cons_False _ x) by (simpl; lia).
    by rewrite (filter_cons_True _ y) by done.
  - rewrite (filter_cons_False _ y) by done. rewrite IH.
    destruct (decide (key x = k)) as [Hx|Hx].
    + rewrite !(filter_cons_True _ x) by done. by rewrite (filter_cons_False _ y) by done.
    + rewrite !(filter_cons_False _ x) by done. by rewrite (filter_cons_False _ y) by done.
Qed.

Lemma sorted_reverse_spec {A} (key : A → Z) (l : list A) :
  sorted_reverse key l ≡ₚ l ∧
  StronglySorted (λ a b, key b ≤ key a) (sorted_reverse key l) ∧
  ∀ k, filter (λ a, key a = k) (sorted_reverse key l) = filter (λ a, key a = k) l.
Proof.
  unfold sorted_reverse. induction l as [|x l (Hperm & Hsorted & Hstable)].
  - split; [done|]. split; [constructor | done].
  - cbn [foldr]. split; [by rewrite insert_reverse_perm, Hperm|].
    split; [by apply insert_reverse_sorted|].
    intros k. rewrite insert_reverse_stable.
    destruct (decide (key x = k)) as [Hx|Hx].
    + rewrite !(filter_cons_True _ x) by done. by rewrite Hstable.
    + rewrite !(filter_cons_False _ x) by done. by rewrite Hstable.
Qed.

(** X25. A new broker holds the consumptions it was given, rearranged by
    non-increasing cost; consumptions of equal cost keep the order they were
    given in. *)
Theorem init_sorts_consumptions
    (optimize_adequacy : list Consumption.t → list Production.t → NodeState.t)
    name ask uuid_generate ledger_exchange min_exchange consumptions productions borders :
  let b := __init__ optimize_adequacy name ask uuid_generate ledger_exchange min_exchange
                    consumptions productions borders in
  Broker.consumptions b ≡ₚ consumptions ∧
  StronglySorted (λ c c', Consumption.cost c' ≤ Consumption.cost c) (Broker.consumptions b) ∧
  ∀ cost, filter (λ c, Consumption.cost c = cost) (Broker.consumptions b)
          = filter (λ c, Consumption.cost c = cost) consumptions.
Proof. cbv zeta. unfold __init__. cbn [Broker.consumptions]. apply sorted_reverse_spec. Qed.

(** ** The totals a node reports *)

Lemma compute_total_run w :
  compute_total w =
  (Ok (consumptions (self w),
       (λ p, Production.mk (Production.cost p)
               (used_quantity (self w) (Production.id p)
                + LedgerExchange.sum_production (Production.id p) (ledger_exchanges (self w)))
               (Production.type p) (Production.id p) (Production.exchange p))
       <$> raw_productions (self w),
       []), w).
Proof. reflexivity. Qed.

Lemma receive_proposal_offer_served proposal w free exs w' :
  ¬ 1 < Z.of_nat (length (ProposalOffer.path_node proposal)) →
  find_production (NodeState.productions_free (state (self w)))
                  (ProposalOffer.production_id proposal) = Ok free →
  0 < Z.min (ProposalOffer.quantity proposal)
            (Production.quantity free
             - LedgerExchange.sum_production (ProposalOffer.production_id proposal)
                                             (ledger_exchanges (self w))) →
  0 < min_exchange (self w) →
  receive_proposal_offer proposal w = (Ok exs, w') →
  ∃ ledger1,
    w' = World (set_ledger_exchanges ledger1
                  (set_uuid_calls (uuid_calls (self w) + length exs) (self w))) (trace w) ∧
    ∀ p, LedgerExchange.sum_production p ledger1
         = LedgerExchange.sum_production p (ledger_exchanges (self w))
           + if decide (p = ProposalOffer.production_id proposal)
             then Z.min (ProposalOffer.quantity proposal)
                        (Production.quantity free
                         - LedgerExchange.sum_production
                             (ProposalOffer.production_id proposal)
                             (ledger_exchanges (self w)))
             else 0.
Proof.
  intros Hhop Hfind Hpos Hmin. unfold receive_proposal_offer.
  rewrite decide_False by done.
  rewrite bind_run, this_run, bind_run, lift_run, Hfind. cbv zeta. rewrite bind_run.
  destruct (generate_exchanges _ _ _ w) as [[ex|err] w1] eqn:Hgen; [|done].
  destruct (generate_exchanges_total _ _ _ _ _ _ Hpos Hmin Hgen) as (Hsum & Hids & _ & _).
  destruct (generate_exchanges_shape _ _ _ _ _ _ Hgen) as (-> & _ & _).
  rewrite bind_run, decide_True by done. unfold on_ledger.
  cbn [self trace set_uuid_calls ledger_exchanges].
  destruct (LedgerExchange.add_all ex (ledger_exchanges (self w)))
    as [[[]|err] ledger1] eqn:Hadd; [|done].
  cbn [mret ST_ret]. intros [= <- <-]. exists ledger1. split; [done|].
  intros p. rewrite (add_all_sum _ _ _ _ Hids Hadd p), Hsum. done.
Qed.

(** X27. The totals reported after a producing hop served an offer count
    it: [compute_total] never raises and changes nothing, and after
    [receive_proposal_offer] committed a positive quantity the total of the
    production served has grown by exactly that quantity, and all other
    totals, and the consumptions, are the same. *)
Theorem compute_total_counts_served_offer proposal w free exs w' :
  ¬ 1 < Z.of_nat (length (ProposalOffer.path_node proposal)) →
  find_production (NodeState.productions_free (state (self w)))
                  (ProposalOffer.production_id proposal) = Ok free →
  let quantity_exchange :=
    Z.min (ProposalOffer.quantity proposal)
          (Production.quantity free
           - LedgerExchange.sum_production (ProposalOffer.production_id proposal)
                                           (ledger_exchanges (self w))) in
  0 < quantity_exchange →
  0 < min_exchange (self w) →
  receive_proposal_offer proposal w = (Ok exs, w') →
  ∃ total total',
    compute_total w = (Ok (consumptions (self w), total, []), w) ∧
    compute_total w' = (Ok (consumptions (self w), total', []), w') ∧
    total' =
      (λ p, if decide (Production.id p = ProposalOffer.production_id proposal)
            then copy_production p (Production.quantity p + quantity_exchange)
            else p) <$> total.
Proof.
  intros Hhop Hfind quantity_exchange Hpos Hmin Hrun.
  destruct (receive_proposal_offer_served _ _ _ _ _ Hhop Hfind Hpos Hmin Hrun)
    as (ledger1 & -> & Hsum).
  fold quantity_exchange in Hsum.
  rewrite !compute_total_run.
  cbn [self set_ledger_exchanges set_uuid_calls raw_productions ledger_exchanges consumptions].
  eexists _, _. split; [reflexivity|]. split; [reflexivity|].
  unfold used_quantity. cbn [state set_ledger_exchanges set_uuid_calls].
  induction (raw_productions (self w)) as [|p raw IH]; [done|].
  rewrite !fmap_cons, IH. f_equal. cbn [Production.id]. rewrite Hsum.
  case_decide.
  - unfold copy_production. cbn. f_equal. lia.
  - by rewrite Z.add_0_r.
Qed.

Lemma compute_total_counts_served_offer_witness :
  let offer := ProposalOffer.mk 7 1 5 ["Q"] ["A"] in
  let run := receive_proposal_offer offer (World node_Q []) in
  run.1 = Ok [Exchange.mk 2 0 7 ["A"]; Exchange.mk 2 1 7 ["A"]] ∧
  (compute_total (World node_Q [])).1 = Ok ([], [Production.mk 1 6 Local 7 None], []) ∧
  (compute_total run.2).1 = Ok ([], [Production.mk 1 10 Local 7 None], []) ∧
  ∃ total total',
    compute_total (World node_Q []) = (Ok (consumptions node_Q, total, []), World node_Q []) ∧
    compute_total run.2 = (Ok (consumptions node_Q, total', []), run.2) ∧
    total' =
      (λ p, if decide (Production.id p = 7%nat)
            then copy_production p
                   (Production.quantity p
                    + Z.min 5 (6 - LedgerExchange.sum_production 7 (ledger_exchanges node_Q)))
            else p) <$> total.
Proof.
  cbv zeta. split; [vm_compute; reflexivity|].
  split; [vm_compute; reflexivity|]. split; [vm_compute; reflexivity|].
  apply (compute_total_counts_served_offer (ProposalOffer.mk 7 1 5 ["Q"] ["A"])
           (World node_Q []) (Production.mk 1 6 Local 7 None)
           [Exchange.mk 2 0 7 ["A"]; Exchange.mk 2 1 7 ["A"]]).
  - cbn. lia.
  - reflexivity.
  - vm_compute. reflexivity.
  - vm_compute. reflexivity.
  - vm_compute. reflexivity.
Defined.

(** ** What no message changes *)

Lemma set_state_same b : set_state (state b) b = b.
Proof. by destruct b. Qed.

Lemma set_uuid_calls_same b : set_uuid_calls (uuid_calls b) b = b.
Proof. by destruct b. Qed.

Lemma receive_proposal_offer_world proposal w r w' :
  receive_proposal_offer proposal w = (r, w') →
  ∃ ledger calls told,
    (uuid_calls (self w) ≤ calls)%nat ∧
    w' = World (set_ledger_exchanges ledger (set_uuid_calls calls (self w))) (trace w ++ told).
Proof.
  assert (∀ told, ∃ ledger calls told',
            (uuid_calls (self w) ≤ calls)%nat ∧
            World (self w) (trace w ++ told) =
            World (set_ledger_exchanges ledger (set_uuid_calls calls (self w)))
                  (trace w ++ told')) as Hsame.
  { intros told. exists (ledger_exchanges (self w)), (uuid_calls (self w)), told.
    split; [done|]. by rewrite set_uuid_calls_same, set_ledger_exchanges_same. }
  assert (∃ ledger calls told',
            (uuid_calls (self w) ≤ calls)%nat ∧
            w = World (set_ledger_exchanges ledger (set_uuid_calls calls (self w)))
                      (trace w ++ told')) as Hnone.
  { destruct (Hsame []) as (ledger & calls & told & Hle & Heq).
    exists ledger, calls, told. split; [done|]. rewrite <- Heq, app_nil_r. by destruct w. }
  unfold receive_proposal_offer. case_decide.
  - rewrite bind_run, lift_run. destruct (py_first _) as [to|err].
    + rewrite call_ask_run. intros [= <- <-]. apply Hsame.
    + by intros [= <- <-].
  - rewrite bind_run, this_run, bind_run, lift_run.
    destruct (find_production _ _) as [free|err]; [|by intros [= <- <-]].
    cbv zeta. rewrite bind_run.
    set (quantity_exchange := Z.min _ _).
    destruct (py_int_truediv quantity_exchange (min_exchange (self w))) as [len|err] eqn:Hdiv.
    + destruct (generate_exchanges _ quantity_exchange _ w) as [[ex|err] w1] eqn:Hgen.
      * destruct (generate_exchanges_shape _ _ _ _ _ _ Hgen) as (-> & _ & _).
        rewrite bind_run. case_decide.
        -- unfold on_ledger. cbn [self trace set_uuid_calls ledger_exchanges].
           destruct (LedgerExchange.add_all ex (ledger_exchanges (self w)))
             as [[[]|err] ledger1]; cbn [mret ST_ret]; intros [= <- <-];
             exists ledger1, (uuid_calls (self w) + length ex)%nat, [];
             (split; [lia | by rewrite app_nil_r]).
        -- cbn [mret ST_ret]. intros [= <- <-].
           exists (ledger_exchanges (self w)), (uuid_calls (self w) + length ex)%nat, [].
           split; [lia|]. by rewrite app_nil_r.
      * rewrite (generate_exchanges_run _ _ _ _ _ Hdiv) in Hgen. discriminate.
    + rewrite (generate_exchanges_raises _ _ _ _ _ Hdiv). by intros [= <- <-].
Qed.

Lemma receive_cancel_exchange_world cancel w r w' :
  receive_cancel_exchange cancel w = (r, w') →
  ∃ ledger told, w' = World (set_ledger_exchanges ledger (self w)) (trace w ++ told).
Proof.
  unfold receive_cancel_exchange. case_decide.
  - rewrite bind_run, lift_run. destruct (py_first _) as [to|err].
    + rewrite tell_run. intros [= <- <-]. eexists (ledger_exchanges (self w)), _.
      by rewrite set_ledger_exchanges_same.
    + intros [= <- <-]. exists (ledger_exchanges (self w)), [].
      rewrite set_ledger_exchanges_same, app_nil_r. by destruct w.
  - rewrite bind_run. unfold on_ledger at 1.
    destruct (LedgerExchange.delete_all _ _) as [[[]|err] ledger1].
    + rewrite bind_run, lift_run.
      destruct (py_first (ConsumerCanceledExchange.exchanges cancel)) as [first|err].
      * rewrite bind_run, this_run, bind_run, lift_run. cbn [self trace].
        destruct (py_first _) as [cost|err].
        -- rewrite send_proposal_run. intros [= <- <-]. by eexists ledger1, _.
        -- intros [= <- <-]. exists ledger1, []. by rewrite app_nil_r.
      * intros [= <- <-]. exists ledger1, []. by rewrite app_nil_r.
    + intros [= <- <-]. exists ledger1, []. by rewrite app_nil_r.
Qed.

Lemma receive_proposal_world
    (optimize_adequacy : list Consumption.t → list Production.t → NodeState.t)
    proposal w r w' :
  receive_proposal optimize_adequacy proposal w = (r, w') →
  ∃ st told, w' = World (set_state st (self w)) (trace w ++ told).
Proof.
  assert (∃ st told, w = World (set_state st (self w)) (trace w ++ told)) as Hnone.
  { exists (state (self w)), []. rewrite set_state_same, app_nil_r. by destruct w. }
  unfold receive_proposal. rewrite bind_run, this_run. cbv zeta. case_decide.
  - set (new_state := optimize_adequacy _ _).
    destruct (find_production (NodeState.productions_used new_state)
                (Proposal.production_id proposal)) as [prod_asked|err] eqn:Hfind.
    + destruct (Proposal.path_node proposal) as [|to rest] eqn:Hpath.
      * unfold make_offer.
        rewrite bind_run, this_run, bind_run, lift_run, Hfind, bind_run, lift_run, Hpath.
        by intros [= <- <-].
      * destruct (make_offer_run optimize_adequacy proposal new_state w _ _ _ Hfind Hpath)
          as (r0 & st & later & ->).
        intros [= <- <-]. by eexists st, _.
    + unfold make_offer. rewrite bind_run, this_run, bind_run, lift_run, Hfind.
      by intros [= <- <-].
  - rewrite send_proposal_run. intros [= <- <-]. eexists (state (self w)), _.
    by rewrite set_state_same.
Qed.

(** X28. Whatever message the dispatcher routes, and whether the handler
    completes or raises, the broker keeps its configuration (name, ask,
    uuid_generate, consumptions, raw productions, borders, min_exchange),
    does not take an identifier back, and only adds to what it has sent.
    Start, Snapshot and Next leave the broker untouched (Start replies
    nothing, Snapshot the node itself, Next the node's name with the totals
    of [compute_total]); a Proposal can only change the NodeState; a
    ProposalOffer never changes the NodeState; a ConsumerCanceledExchange
    changes neither the NodeState nor the identifier source. *)
Theorem on_receive_keeps_configuration
    (optimize_adequacy : list Consumption.t → list Production.t → NodeState.t)
    (message : Dispatcher.message) (w : world) r w' :
  Dispatcher.on_receive optimize_adequacy message w = (r, w') →
  same_configuration (self w) (self w') ∧
  (uuid_calls (self w) ≤ uuid_calls (self w'))%nat ∧
  (∃ told, trace w' = trace w ++ told) ∧
  match message with
  | Dispatcher.Start => r = Ok Dispatcher.NoReply ∧ self w' = self w
  | Dispatcher.Snapshot => r = Ok (Dispatcher.Self (self w)) ∧ w' = w
  | Dispatcher.Next =>
      (∃ total, r = Ok (Dispatcher.Total (name (self w)) total) ∧
                compute_total w = (Ok total, w)) ∧ w' = w
  | Dispatcher.Proposal _ =>
      ledger_exchanges (self w') = ledger_exchanges (self w) ∧
      uuid_calls (self w') = uuid_calls (self w)
  | Dispatcher.ProposalOffer _ => state (self w') = state (self w)
  | Dispatcher.ConsumerCanceledExchange _ =>
      state (self w') = state (self w) ∧ uuid_calls (self w') = uuid_calls (self w)
  end.
Proof.
  destruct message as [| | |m|m|m]; unfold Dispatcher.on_receive; rewrite bind_run.
  - unfold init. rewrite bind_run, this_run, send_proposal_run. cbn [mret ST_ret].
    intros [= <- <-]. cbn [self trace]. unfold same_configuration.
    repeat split; try done. by eexists.
  - rewrite this_run. cbn [mret ST_ret]. intros [= <- <-].
    unfold same_configuration. repeat split; try done. exists []. by rewrite app_nil_r.
  - rewrite this_run, bind_run, compute_total_run. cbn [mret ST_ret]. intros [= <- <-].
    unfold same_configuration. repeat split; try done.
    + exists []. by rewrite app_nil_r.
    + eexists. split; [reflexivity|]. apply compute_total_run.
  - destruct (receive_proposal_offer m w) as [r1 w1] eqn:Hrun.
    destruct (receive_proposal_offer_world _ _ _ _ Hrun) as (ledger & calls & told & Hle & ->).
    destruct r1 as [ex|err]; cbn [mret ST_ret]; intros [= <- <-];
      unfold same_configuration; cbn; repeat split; try done; by eexists.
  - destruct (receive_proposal optimize_adequacy m w) as [r1 w1] eqn:Hrun.
    destruct (receive_proposal_world _ _ _ _ _ Hrun) as (st & told & ->).
    destruct r1 as [[]|err]; cbn [mret ST_ret]; intros [= <- <-];
      unfold same_configuration; cbn; repeat split; try done; by eexists.
  - destruct (receive_cancel_exchange m w) as [r1 w1] eqn:Hrun.
    destruct (receive_cancel_exchange_world _ _ _ _ Hrun) as (ledger & told & ->).
    destruct r1 as [[]|err]; cbn [mret ST_ret]; intros [= <- <-];
      unfold same_configuration; cbn; repeat split; try done; by eexists.
Qed.

Lemma on_receive_keeps_configuration_witness :
  let offer := ProposalOffer.mk 7 1 5 ["Q"] ["A"] in
  let run := Dispatcher.on_receive idle_solver (Dispatcher.ProposalOffer offer)
               (World node_Q []) in
  run.1 = Ok (Dispatcher.Exchanges [Exchange.mk 2 0 7 ["A"]; Exchange.mk 2 1 7 ["A"]]) ∧
  same_configuration node_Q (self run.2) ∧
  (uuid_calls node_Q ≤ uuid_calls (self run.2))%nat ∧
  (∃ told, trace run.2 = [] ++ told) ∧
  state (self run.2) = state node_Q.
Proof.
  cbv zeta. split; [vm_compute; reflexivity|].
  apply (on_receive_keeps_configuration idle_solver
           (Dispatcher.ProposalOffer (ProposalOffer.mk 7 1 5 ["Q"] ["A"])) (World node_Q [])
           (Dispatcher.on_receive idle_solver
              (Dispatcher.ProposalOffer (ProposalOffer.mk 7 1 5 ["Q"] ["A"]))
              (World node_Q [])).1).
  apply surjective_pairing.
Defined.

(** ** The identifiers of a broker's productions *)



